(** * Post-processing of question-answering predictions

  A shallow embedding of [postprocess_qa_predictions] (src/ADL_HW1/QA.py,
  lines 32-277): the routine that turns per-token start/end logits of the
  features of each example into an answer string.

  Logits are binary64 numbers (the caller fills [np.float64] arrays), so
  they are modelled with Rocq's primitive floats.  Python exceptions are
  values of an error monad.  Python integers that can be negative
  ([n_best_size], character offsets, the [relevant] index) are in [Z] and
  follow Python's indexing and slicing rules. *)

From Stdlib Require Import String Ascii List ZArith Bool Lia Permutation.
From Stdlib Require Import PrimFloat FloatAxioms SpecFloat.
From Stdlib Require Import DecimalString Sorted.
Import ListNotations.

Set Implicit Arguments.

(* ------------------------------------------------------------------ *)
(** ** Python values and exceptions *)

Module Py.

(** The exceptions the function can raise.  The two [ValueError]s of lines
    82 and 86 are told apart by their message. *)
Inductive exn : Type :=
| ValueError_predictions_pair
| ValueError_shape_mismatch (n_predictions n_features : nat)
| KeyError
| IndexError
| UnboundLocalError.

Inductive result (A : Type) : Type :=
| Ok (a : A)
| Raise (e : exn).

Arguments Ok {A} a.
Arguments Raise {A} e.

Definition bind {A B : Type} (r : result A) (k : A -> result B) : result B :=
  match r with
  | Ok a => k a
  | Raise e => Raise e
  end.

(** [l[i]] for a natural index. *)
Definition getitem_nat {A : Type} (l : list A) (i : nat) : result A :=
  match nth_error l i with
  | Some a => Ok a
  | None => Raise IndexError
  end.

(** [l[i]] for a Python integer: negative indices count from the end. *)
Definition getitem {A : Type} (l : list A) (i : Z) : result A :=
  let n := Z.of_nat (length l) in
  if (0 <=? i)%Z then getitem_nat l (Z.to_nat i)
  else if (- n <=? i)%Z then getitem_nat l (Z.to_nat (n + i))
  else Raise IndexError.

(** How a slice bound is brought into [0 .. len]. *)
Definition clamp_index (len i : Z) : Z :=
  if (i <? 0)%Z then Z.max 0 (len + i) else Z.min i len.

(** [s[lo:hi]] on a string. *)
Definition str_slice (s : string) (lo hi : Z) : string :=
  let len := Z.of_nat (String.length s) in
  let a := clamp_index len lo in
  let b := clamp_index len hi in
  substring (Z.to_nat a) (Z.to_nat (b - a)) s.

(** [l[:n]] on a list. *)
Definition slice_to {A : Type} (l : list A) (n : Z) : list A :=
  firstn (Z.to_nat (clamp_index (Z.of_nat (length l)) n)) l.

(** [str(i)] for a non-negative integer. *)
Definition str_of_nat (i : nat) : string :=
  NilEmpty.string_of_uint (Nat.to_uint i).

(** [enumerate(l)]. *)
Definition enumerate {A : Type} (l : list A) : list (nat * A) :=
  combine (seq 0 (length l)) l.

(** Insertion-ordered dictionaries ([dict], [OrderedDict]): assigning to a
    key that is present replaces the value in place, a new key goes last. *)
Section Dict.
Variables K V : Type.
Variable eqb : K -> K -> bool.

Definition dict : Type := list (K * V).

Fixpoint get (d : dict) (k : K) : option V :=
  match d with
  | [] => None
  | (k', v) :: d' => if eqb k k' then Some v else get d' k
  end.

Fixpoint set (d : dict) (k : K) (v : V) : dict :=
  match d with
  | [] => [(k, v)]
  | (k', v') :: d' =>
      if eqb k k' then (k', v) :: d' else (k', v') :: set d' k v
  end.

Definition keys (d : dict) : list K := map fst d.
End Dict.

End Py.

Import Py.

Notation "x <- r ;; k" := (bind r (fun x => k))
(at level 61, r at next level, right associativity).
Notation "' pat <- r ;; k" := (bind r (fun pat => k))
(at level 61, pat pattern, r at next level, right associativity).

(* ------------------------------------------------------------------ *)
(** ** numpy *)

Module Np.

(** The order numpy sorts floats by: [nan] goes last. *)
Definition lt (a b : float) : bool :=
  (a <? b)%float || (is_nan b && negb (is_nan a)).

Definition at_ (v : list float) (i : nat) : float := nth i v nan.

Fixpoint insert_index (v : list float) (i : nat) (sorted : list nat) : list nat :=
  match sorted with
  | [] => [i]
  | j :: rest =>
      if lt (at_ v i) (at_ v j) then i :: j :: rest
      else j :: insert_index v i rest
  end.

(** [np.argsort(v)]: the indices of [v] by ascending value.  Equal values
    keep their index order here; numpy's default sort does not promise an
    order among them. *)
Definition argsort (v : list float) : list nat :=
  fold_left (fun acc i => insert_index v i acc) (seq 0 (length v)) [].

(** [np.max]: the accumulator is kept unless the next element is larger;
    [nan] propagates.  On an empty array numpy raises; the function below is
    only called on the scores of a list that the guard of line 197 has made
    non-empty. *)
Definition max (l : list float) : float :=
  match l with
  | [] => nan
  | x :: xs =>
      fold_left (fun acc y => if (y <=? acc)%float || is_nan acc then acc else y) xs x
  end.

End Np.

(* ------------------------------------------------------------------ *)
(** ** Data model *)

(** One row of [examples]: its [id] and the index [relevant] of its context
  in [context_list]. *)
Record example : Type := {
ex_id : string;
relevant : Z
}.

(** One row of [features].  An entry of [offset_mapping] is [None] or a
  sequence of integers, of which the code reads items 0 and 1 after
  checking that there are at least two. *)
Record feature : Type := {
example_id : string;
offset_mapping : list (option (list Z));
token_is_max_context : option (dict string bool)
}.

(** The keyword arguments that steer the computation. *)
Record config : Type := {
version_2_with_negative : bool;
n_best_size : Z;
max_answer_length : Z;
null_score_diff_threshold : float
}.

(** A prediction as it is collected: keys [offsets], [score], [start_logit],
  [end_logit]. *)
Record prelim_prediction : Type := {
offsets : Z * Z;
score : float;
start_logit : float;
end_logit : float
}.

(** The same dictionary after line 193: [offsets] popped, [text] added. *)
Record text_prediction : Type := {
t_text : string;
t_score : float;
t_start_logit : float;
t_end_logit : float
}.

(** The same dictionary after line 210: [score] popped, [probability] added.
  This is what [all_nbest_json] stores. *)
Record nbest_prediction : Type := {
text : string;
probability : float;
nb_start_logit : float;
nb_end_logit : float
}.

Definition offsets_eqb (a b : Z * Z) : bool :=
(fst a =? fst b)%Z && (snd a =? snd b)%Z.

(* ------------------------------------------------------------------ *)
(** ** Candidate spans of one feature (lines 134-165) *)

Section Candidates.
Variable cfg : config.

(** [np.argsort(logits)[-1 : -n_best_size - 1 : -1].tolist()]: the slice
    walks the sorted indices backwards from the last one and stops after
    [n_best_size] of them, which is the reversed array cut by
    [[:n_best_size]]. *)
Definition best_indexes (logits : list float) : list nat :=
  slice_to (rev (Np.argsort logits)) (n_best_size cfg).

(** The test of lines 141-148. *)
Definition out_of_scope (om : list (option (list Z))) (start_index end_index : nat) : bool :=
  (length om <=? start_index)
  || (length om <=? end_index)
  || match nth_error om start_index with
     | Some (Some o) => length o <? 2
     | _ => true
     end
  || match nth_error om end_index with
     | Some (Some o) => length o <? 2
     | _ => true
     end.

(** The test of line 151. *)
Definition bad_length (start_index end_index : nat) : bool :=
  (end_index <? start_index)
  || (max_answer_length cfg <? Z.of_nat end_index - Z.of_nat start_index + 1)%Z.

(** The test of line 155. *)
Definition not_max_context (tmc : option (dict string bool)) (start_index : nat) : bool :=
  match tmc with
  | None => false
  | Some d =>
      negb (match get String.eqb d (str_of_nat start_index) with
            | Some b => b
            | None => false
            end)
  end.

(** [offset_mapping[i][k]], read only where [out_of_scope] is false. *)
Definition offset_at (om : list (option (list Z))) (i k : nat) : Z :=
  match nth_error om i with
  | Some (Some o) => nth k o 0%Z
  | _ => 0%Z
  end.

Definition span_prediction (feat : feature) (start_logits end_logits : list float)
    (start_index end_index : nat) : list prelim_prediction :=
  if out_of_scope (offset_mapping feat) start_index end_index then []
  else if bad_length start_index end_index then []
  else if not_max_context (token_is_max_context feat) start_index then []
  else
    [ {| offsets := (offset_at (offset_mapping feat) start_index 0,
                     offset_at (offset_mapping feat) end_index 1);
         score := (Np.at_ start_logits start_index + Np.at_ end_logits end_index)%float;
         start_logit := Np.at_ start_logits start_index;
         end_logit := Np.at_ end_logits end_index |} ].

(** The double loop of lines 137-165, in its order of appending. *)
Definition feature_predictions (feat : feature) (start_logits end_logits : list float)
    : list prelim_prediction :=
  flat_map
    (fun start_index =>
       flat_map (span_prediction feat start_logits end_logits start_index)
                (best_indexes end_logits))
    (best_indexes start_logits).

End Candidates.

(* ------------------------------------------------------------------ *)
(** ** One example (the body of the loop of line 105) *)

(** The dictionary built at lines 127-132 from the logits at position 0. *)
Definition null_prediction (s0 e0 : float) : prelim_prediction :=
  {| offsets := (0%Z, 0%Z);
     score := (s0 + e0)%float;
     start_logit := s0;
     end_logit := e0 |}.

(** Lines 125-132: [min_null_prediction["score"] > feature_null_score]. *)
Definition update_min_null (min_null_prediction : option prelim_prediction)
    (s0 e0 : float) : option prelim_prediction :=
  let feature_null_score := (s0 + e0)%float in
  match min_null_prediction with
  | None => Some (null_prediction s0 e0)
  | Some m =>
      if (feature_null_score <? score m)%float then Some (null_prediction s0 e0)
      else Some m
  end.

(** [sorted(l, key=lambda x: x["score"], reverse=True)]: a stable sort by
    descending score that compares with [<] only.  It is Python's order
    whenever [<] orders the scores present (no [nan] among them). *)
Fixpoint insert_by_score (p : prelim_prediction) (sorted : list prelim_prediction)
    : list prelim_prediction :=
  match sorted with
  | [] => [p]
  | q :: rest =>
      if (score p <? score q)%float then q :: insert_by_score p rest
      else p :: q :: rest
  end.

Definition sorted_by_score (l : list prelim_prediction) : list prelim_prediction :=
  fold_right insert_by_score [] l.

(** [any(p["offsets"] == (0, 0) for p in predictions)]. *)
Definition has_null_offsets (predictions : list prelim_prediction) : bool :=
  existsb (fun p => offsets_eqb (offsets p) (0%Z, 0%Z)) predictions.

(** Line 193. *)
Definition resolve_text (context : string) (p : prelim_prediction) : text_prediction :=
  {| t_text := str_slice context (fst (offsets p)) (snd (offsets p));
     t_score := score p;
     t_start_logit := start_logit p;
     t_end_logit := end_logit p |}.

(** The fake prediction of line 198. *)
Definition placeholder : text_prediction :=
  {| t_text := "empty"%string;
     t_score := 0%float;
     t_start_logit := 0%float;
     t_end_logit := 0%float |}.

(** The test of line 197. *)
Definition degenerate (predictions : list text_prediction) : bool :=
  match predictions with
  | [] => true
  | [p] => String.eqb (t_text p) EmptyString
  | _ => false
  end.

Definition guard (predictions : list text_prediction) : list text_prediction :=
  if degenerate predictions then placeholder :: predictions else predictions.

(** The scan of lines 220-223; [None] is the [IndexError] of running past the
    end of the list. *)
Fixpoint first_non_empty (predictions : list nbest_prediction) : option nbest_prediction :=
  match predictions with
  | [] => None
  | p :: rest => if String.eqb (text p) EmptyString then first_non_empty rest else Some p
  end.

(** What one iteration leaves behind: the entries written to the three
    dictionaries and the value of the local variable [null_score]. *)
Record example_result : Type := {
  answer : string;
  nbest : list nbest_prediction;
  score_diff : option float;
  null_score_after : option float
}.

Section Resolver.
(** [np.exp] and [ndarray.sum] are numpy's; their rounding is not modelled. *)
Variable np_exp : float -> float.
Variable np_sum : list float -> float.

(** Lines 204-206. *)
Definition softmax (scores : list float) : list float :=
  let exp_scores := map (fun s => np_exp (s - Np.max scores)%float) scores in
  map (fun e => (e / np_sum exp_scores)%float) exp_scores.

(** Lines 209-210. *)
Definition add_probabilities (predictions : list text_prediction) : list nbest_prediction :=
  map (fun '(prob, pred) =>
         {| text := t_text pred;
            probability := prob;
            nb_start_logit := t_start_logit pred;
            nb_end_logit := t_end_logit pred |})
      (combine (softmax (map t_score predictions)) predictions).

Section Call.
Variable cfg : config.
Variable features : list feature.
Variable context_list : list string.
Variables all_start_logits all_end_logits : list (list float).

(** One pass of the loop of line 113 over the pair
    [(min_null_prediction, prelim_predictions)]. *)
Definition feature_step (st : option prelim_prediction * list prelim_prediction)
    (feature_index : nat) : result (option prelim_prediction * list prelim_prediction) :=
  start_logits <- getitem_nat all_start_logits feature_index ;;
  end_logits <- getitem_nat all_end_logits feature_index ;;
  feat <- getitem_nat features feature_index ;;
  s0 <- getitem_nat start_logits 0 ;;
  e0 <- getitem_nat end_logits 0 ;;
  Ok (update_min_null (fst st) s0 e0,
      snd st ++ feature_predictions cfg feat start_logits end_logits).

Fixpoint features_loop (feature_indices : list nat)
    (st : option prelim_prediction * list prelim_prediction)
    : result (option prelim_prediction * list prelim_prediction) :=
  match feature_indices with
  | [] => Ok st
  | feature_index :: rest =>
      st' <- feature_step st feature_index ;;
      features_loop rest st'
  end.

(** Lines 166-168: the pool that is ranked. *)
Definition with_null (min_null_prediction : option prelim_prediction)
    (prelim_predictions : list prelim_prediction) : list prelim_prediction :=
  match min_null_prediction with
  | Some m =>
      if version_2_with_negative cfg then prelim_predictions ++ [m]
      else prelim_predictions
  | None => prelim_predictions
  end.

(** Line 169: [null_score] is assigned only under the test of line 166;
    otherwise the variable keeps what an earlier example left in it. *)
Definition assign_null_score (null_score : option float)
    (min_null_prediction : option prelim_prediction) : option float :=
  match min_null_prediction with
  | Some m => if version_2_with_negative cfg then Some (score m) else null_score
  | None => null_score
  end.

(** Line 172. *)
Definition best_predictions (min_null_prediction : option prelim_prediction)
    (prelim_predictions : list prelim_prediction) : list prelim_prediction :=
  slice_to (sorted_by_score (with_null min_null_prediction prelim_predictions))
           (n_best_size cfg).

(** The test of lines 175-179. *)
Definition null_added_back (min_null_prediction : option prelim_prediction)
    (predictions : list prelim_prediction) : bool :=
  version_2_with_negative cfg
  && match min_null_prediction with Some _ => true | None => false end
  && negb (has_null_offsets predictions).

(** Lines 172-180. *)
Definition kept_predictions (min_null_prediction : option prelim_prediction)
    (prelim_predictions : list prelim_prediction) : list prelim_prediction :=
  let predictions := best_predictions min_null_prediction prelim_predictions in
  match min_null_prediction with
  | Some m =>
      if null_added_back min_null_prediction predictions then predictions ++ [m]
      else predictions
  | None => predictions
  end.

(** Lines 215-232: the answer and, in null-answer mode, the score difference. *)
Definition pick_answer (null_score : option float) (predictions : list nbest_prediction)
    : result (string * option float) :=
  if negb (version_2_with_negative cfg) then
    p <- getitem_nat predictions 0 ;;
    Ok (text p, None)
  else
    match first_non_empty predictions with
    | None => Raise IndexError
    | Some best_non_null_pred =>
        match null_score with
        | None => Raise UnboundLocalError
        | Some ns =>
            let score_diff :=
              (ns - nb_start_logit best_non_null_pred - nb_end_logit best_non_null_pred)%float in
            Ok (if (null_score_diff_threshold cfg <? score_diff)%float then EmptyString
                else text best_non_null_pred,
                Some score_diff)
        end
    end.

(** The body of the loop of line 105 for one example, given the value
    [null_score] of the local variable on entry and the example's
    [feature_indices]. *)
Definition process_example (null_score : option float) (feature_indices : list nat)
    (ex : example) : result example_result :=
  st <- features_loop feature_indices (None, []) ;;
  let null_score' := assign_null_score null_score (fst st) in
  let predictions := kept_predictions (fst st) (snd st) in
  context <- getitem context_list (relevant ex) ;;
  let predictions := add_probabilities (guard (map (resolve_text context) predictions)) in
  picked <- pick_answer null_score' predictions ;;
  Ok {| answer := fst picked;
        nbest := predictions;
        score_diff := snd picked;
        null_score_after := null_score' |}.

End Call.
End Resolver.

(* ------------------------------------------------------------------ *)
(** ** The whole call (lines 81-107 and 235-277) *)

(** Line 89: a later example with the same id overwrites the index. *)
Definition example_id_to_index (examples : list example) : dict string nat :=
  fold_left (fun d ik => set String.eqb d (snd ik) (fst ik))
            (enumerate (map ex_id examples)) [].

(** Lines 90-92: [features_per_example] is a [defaultdict(list)]; a feature
    whose [example_id] is not an id of [examples] raises [KeyError]. *)
Fixpoint group_features (e2i : dict string nat) (rows : list (nat * feature))
    (features_per_example : dict nat (list nat)) : result (dict nat (list nat)) :=
  match rows with
  | [] => Ok features_per_example
  | (i, feat) :: rest =>
      match get String.eqb e2i (example_id feat) with
      | None => Raise KeyError
      | Some example_index =>
          let old :=
            match get Nat.eqb features_per_example example_index with
            | Some l => l
            | None => []
            end in
          group_features e2i rest
            (set Nat.eqb features_per_example example_index (old ++ [i]))
      end
  end.

(** Line 107: a missing key of the [defaultdict] reads as the empty list. *)
Definition feature_indices_of (features_per_example : dict nat (list nat))
    (example_index : nat) : list nat :=
  match get Nat.eqb features_per_example example_index with
  | Some l => l
  | None => []
  end.

(** The local variables that live across the iterations of line 105.
    [scores_diff_json] is bound only in null-answer mode (lines 97-98);
    [null_score] is bound once line 169 has run for some example. *)
Record locals : Type := {
  all_predictions : dict string string;
  all_nbest_json : dict string (list nbest_prediction);
  scores_diff_json : option (dict string float);
  null_score : option float
}.

(** Lines 94-98. *)
Definition initial_locals (cfg : config) : locals :=
  {| all_predictions := [];
     all_nbest_json := [];
     scores_diff_json := if version_2_with_negative cfg then Some [] else None;
     null_score := None |}.

(** The assignments of lines 217, 227-232 and 235. *)
Definition record_example (l : locals) (ex : example) (r : example_result) : locals :=
  {| all_predictions := set String.eqb (all_predictions l) (ex_id ex) (answer r);
     all_nbest_json := set String.eqb (all_nbest_json l) (ex_id ex) (nbest r);
     scores_diff_json :=
       match score_diff r with
       | Some x => option_map (fun d => set String.eqb d (ex_id ex) x) (scores_diff_json l)
       | None => scores_diff_json l
       end;
     null_score := null_score_after r |}.

(** What a call hands back to its caller: one of the dictionaries the function
    builds, or a tuple of them (how Python returns several values). *)
Inductive pyobject : Type :=
| PyAnswers (d : dict string string)
| PyNbest (d : dict string (list nbest_prediction))
| PyScoresDiff (d : dict string float).

Inductive pyvalue : Type :=
| PyObject (o : pyobject)
| PyTuple (items : list pyobject).

Section Main.
Variable np_exp : float -> float.
Variable np_sum : list float -> float.

Fixpoint examples_loop (cfg : config) (features : list feature)
    (context_list : list string) (all_start_logits all_end_logits : list (list float))
    (features_per_example : dict nat (list nat))
    (rows : list (nat * example)) (l : locals) : result locals :=
  match rows with
  | [] => Ok l
  | (example_index, ex) :: rest =>
      r <- process_example np_exp np_sum cfg features context_list
             all_start_logits all_end_logits (null_score l)
             (feature_indices_of features_per_example example_index) ex ;;
      examples_loop cfg features context_list all_start_logits all_end_logits
        features_per_example rest (record_example l ex r)
  end.

(** The function up to its [return]: the local variables at line 276. *)
Definition run (examples : list example) (features : list feature)
    (context_list : list string) (predictions : list (list (list float)))
    (cfg : config) : result locals :=
  if negb (length predictions =? 2) then Raise ValueError_predictions_pair
  else
    let all_start_logits := nth 0 predictions [] in
    let all_end_logits := nth 1 predictions [] in
    if negb (length all_start_logits =? length features) then
      Raise (ValueError_shape_mismatch (length all_start_logits) (length features))
    else
      features_per_example <-
        group_features (example_id_to_index examples) (enumerate features) [] ;;
      examples_loop cfg features context_list all_start_logits all_end_logits
        features_per_example (enumerate examples) (initial_locals cfg).

(** Line 277: [return all_predictions]. *)
Definition return_value (l : locals) : pyvalue :=
  PyObject (PyAnswers (all_predictions l)).

Definition postprocess_qa_predictions (examples : list example)
    (features : list feature) (context_list : list string)
    (predictions : list (list (list float))) (cfg : config) : result pyvalue :=
  l <- run examples features context_list predictions cfg ;;
  Ok (return_value l).

End Main.


(* ------------------------------------------------------------------ *)
(** ** Notions used in the statements *)

(** The exceptions of the per-example loop. *)
Definition loop_exn (e : exn) : Prop := e = IndexError \/ e = UnboundLocalError.

(** The ids that have an entry in each dictionary of [l]. *)
Definition covered (cfg : config) (ids : list string) (l : locals) : Prop :=
  (forall k, In k ids ->
     In k (keys (all_predictions l)) /\ In k (keys (all_nbest_json l)))
  /\ (if version_2_with_negative cfg
      then exists d, scores_diff_json l = Some d /\ forall k, In k ids -> In k (keys d)
      else scores_diff_json l = None).

(** The logits at position 0 of feature [i], when both rows exist and are
    non-empty: what line 125 reads. *)
Definition null_logits (all_start_logits all_end_logits : list (list float))
    (i : nat) : option (float * float) :=
  match nth_error all_start_logits i, nth_error all_end_logits i with
  | Some (s0 :: _), Some (e0 :: _) => Some (s0, e0)
  | _, _ => None
  end.

(** [m] is the null prediction of one of the features [seen], and no feature
    of [seen] has a null score below its score. *)
Definition min_null_of (all_start_logits all_end_logits : list (list float))
    (seen : list nat) (m : prelim_prediction) : Prop :=
  (exists i s0 e0,
      In i seen
      /\ null_logits all_start_logits all_end_logits i = Some (s0, e0)
      /\ m = null_prediction s0 e0)
  /\ (forall j s e,
        In j seen ->
        null_logits all_start_logits all_end_logits j = Some (s, e) ->
        (s + e <? score m)%float = false).

(** What the loop of line 113 maintains about [min_null_prediction] once the
    features [seen] have been visited. *)
Definition min_null_invariant (all_start_logits all_end_logits : list (list float))
    (seen : list nat) (acc : option prelim_prediction) : Prop :=
  match acc with
  | None => seen = []
  | Some m => min_null_of all_start_logits all_end_logits seen m
  end.

(** The bound the specification gives for the length of an n-best list:
    between 1 and [n_best_size], plus one when the null prediction was added
    back. *)
Definition spec_nbest_length (cfg : config) (added_back : bool) (len : nat) : Prop :=
  1 <= len
  /\ (Z.of_nat len <= n_best_size cfg + (if added_back then 1 else 0))%Z.

(** The specification's reading of lines 174-180: whatever the cut of line
    172 did, the tracked null prediction is among the kept ones. *)
Definition spec_null_forced_back (cfg : config)
    (min_null_prediction : option prelim_prediction)
    (prelim_predictions : list prelim_prediction) : Prop :=
  forall m,
    min_null_prediction = Some m ->
    In m (kept_predictions cfg min_null_prediction prelim_predictions).


(** The result the contract of the specification describes: a tuple of the
    answer mapping, the n-best mapping and, in null-answer mode, a score-diff
    mapping with an entry for every example; without null-answer mode the
    score-diff mapping is absent or empty. *)
Definition spec_three_results (cfg : config) (examples : list example)
    (v : pyvalue) : Prop :=
  exists answers nbests,
    if version_2_with_negative cfg then
      exists diffs,
        v = PyTuple [PyAnswers answers; PyNbest nbests; PyScoresDiff diffs]
        /\ forall ex, In ex examples -> In (ex_id ex) (keys diffs)
    else
      v = PyTuple [PyAnswers answers; PyNbest nbests]
      \/ v = PyTuple [PyAnswers answers; PyNbest nbests; PyScoresDiff []].

(* ------------------------------------------------------------------ *)
(** ** Inputs used in the examples below *)

(** A stand-in for [np.exp] with which the model can be run: a Taylor
    polynomial on [x / 1024], squared ten times.  The theorems below hold for
    every [np_exp]. *)
Definition exp_poly (x : float) : float :=
  (1 + x * (1 + x / 2 * (1 + x / 3 * (1 + x / 4 * (1 + x / 5 * (1 + x / 6))))))%float.

Definition exp_approx (x : float) : float :=
  Nat.iter 10 (fun y => (y * y)%float) (exp_poly (x / 1024)).

(** A stand-in for [ndarray.sum]: left-to-right addition. *)
Definition sum_left (l : list float) : float :=
  fold_left PrimFloat.add l 0%float.

Definition default_config : config :=
  {| version_2_with_negative := false;
     n_best_size := 20;
     max_answer_length := 30;
     null_score_diff_threshold := 0%float |}.

Definition hello_feature : feature :=
  {| example_id := "q1"%string;
     offset_mapping := [None; Some [0; 5]%Z; Some [6; 11]%Z; None];
     token_is_max_context := None |}.

Definition hello_example : example := {| ex_id := "q1"%string; relevant := 0 |}.

Definition hello_predictions : list (list (list float)) :=
  [ [ [0; 5; 1; 0]%float ]; [ [0; 1; 6; 0]%float ] ].

(** Null-answer mode with the other arguments at their defaults. *)
Definition null_config : config :=
  {| version_2_with_negative := true;
     n_best_size := 20;
     max_answer_length := 30;
     null_score_diff_threshold := 0%float |}.

(** Null-answer mode keeping a single best prediction. *)
Definition null_config_one_best : config :=
  {| version_2_with_negative := true;
     n_best_size := 1;
     max_answer_length := 30;
     null_score_diff_threshold := 0%float |}.

(** Answers of one token at most. *)
Definition one_token_config : config :=
  {| version_2_with_negative := false;
     n_best_size := 20;
     max_answer_length := 1;
     null_score_diff_threshold := 0%float |}.

(** A feature with one context token, "hello". *)
Definition one_token_feature : feature :=
  {| example_id := "q1"%string;
     offset_mapping := [None; Some [0; 5]%Z];
     token_is_max_context := None |}.

(** Null score 4 + 6 = 10, the one span has logits 1 and 2. *)
Definition ten_three_predictions : list (list (list float)) :=
  [ [ [4; 1]%float ]; [ [6; 2]%float ] ].

(** Null score 5 + 5 = 10, the one span has score 0. *)
Definition ten_zero_predictions : list (list (list float)) :=
  [ [ [5; 0]%float ]; [ [5; 0]%float ] ].

(** A second example, which owns no feature. *)
Definition bare_example : example := {| ex_id := "q2"%string; relevant := 0 |}.

(** A feature whose two context tokens have empty character spans. *)
Definition zero_width_feature : feature :=
  {| example_id := "q1"%string;
     offset_mapping := [None; Some [5; 5]%Z; Some [5; 5]%Z];
     token_is_max_context := None |}.

Definition rising_predictions : list (list (list float)) :=
  [ [ [0; 1; 2]%float ]; [ [0; 1; 2]%float ] ].

(** A feature whose context token has the empty span at offset 0. *)
Definition zero_span_feature : feature :=
  {| example_id := "q1"%string;
     offset_mapping := [None; Some [0; 0]%Z];
     token_is_max_context := None |}.

(** Null score 0, the one span has score 5 + 5 = 10. *)
Definition zero_ten_predictions : list (list (list float)) :=
  [ [ [0; 5]%float ]; [ [0; 5]%float ] ].

(** A feature without any context token. *)
Definition no_context_feature : feature :=
  {| example_id := "q1"%string;
     offset_mapping := [None];
     token_is_max_context := None |}.

Definition lone_predictions : list (list (list float)) :=
  [ [ [5]%float ]; [ [5]%float ] ].


(* ------------------------------------------------------------------ *)
(** ** Gathering the logits of the batches (lines 1252-1280) *)

(** A two-dimensional numpy array: its rows and its second dimension, which
    an array without rows still has.  In a real array every row has
    [shape1] items. *)
Record ndarray : Type := {
  rows : list (list float);
  shape1 : nat
}.

Definition shape0 (a : ndarray) : nat := length (rows a).

Definition well_formed (a : ndarray) : Prop :=
  Forall (fun row => length row = shape1 a) (rows a).

(** The two [ValueError]s of this part of the script: numpy refuses an
    assignment whose right-hand side cannot be broadcast to the shape of the
    target, and [max] refuses an empty list. *)
Inductive np_exn : Type :=
| ValueError_broadcast (src_shape target_shape : nat * nat)
| ValueError_max_empty.

Inductive np_result (A : Type) : Type :=
| NpOk (a : A)
| NpRaise (e : np_exn).

Arguments NpOk {A} a.
Arguments NpRaise {A} e.

Definition np_bind {A B : Type} (r : np_result A) (k : A -> np_result B)
    : np_result B :=
  match r with
  | NpOk a => k a
  | NpRaise e => NpRaise e
  end.

(** [np.full((n, m), x)]. *)
Definition np_full (n m : nat) (x : float) : list (list float) :=
  repeat (repeat x m) n.

(** One dimension of size [s] broadcasts to size [t] when they agree or
    [s] is 1. *)
Definition broadcast_dim (s t : nat) : bool := (s =? t) || (s =? 1).

(** The items of a dimension brought to size [t]: kept when there are [t] of
    them, the single item repeated otherwise. *)
Definition stretch {A : Type} (d : A) (l : list A) (t : nat) : list A :=
  if length l =? t then l else repeat (hd d l) t.

(** The right-hand side broadcast to [tr] rows of [tc] items. *)
Definition broadcast_to (src : ndarray) (tr tc : nat) : option (list (list float)) :=
  if broadcast_dim (shape0 src) tr && broadcast_dim (shape1 src) tc
  then Some (map (fun row => stretch nan row tc) (stretch [] (rows src) tr))
  else None.

(** [a[r0:r1, :c] = src] for an array [a] with rows of [m] items: the slices
    are clipped to the array, the right-hand side is broadcast to the clipped
    block and written over it. *)
Definition set_block (a : list (list float)) (m r0 r1 c : nat) (src : ndarray)
    : np_result (list (list float)) :=
  let lo := Nat.min r0 (length a) in
  let hi := Nat.max lo (Nat.min r1 (length a)) in
  let tc := Nat.min c m in
  match broadcast_to src (hi - lo) tc with
  | None => NpRaise (ValueError_broadcast (shape0 src, shape1 src) (hi - lo, tc))
  | Some block =>
      NpOk (firstn lo a
            ++ map (fun br => fst br ++ skipn tc (snd br))
                   (combine block (firstn (hi - lo) (skipn lo a)))
            ++ skipn hi a)
  end.

(** [output_logit[: k]]. *)
Definition rows_to (a : ndarray) (k : Z) : ndarray :=
  {| rows := slice_to (rows a) k; shape1 := shape1 a |}.

(** The body of the loop of line 1268 over [(step, logits_concat)], for a
    dataset of [n] rows. *)
Definition fill_step (n max_len : nat) (st : nat * list (list float))
    (output_logit : ndarray) : np_result (nat * list (list float)) :=
  let step := fst st in
  let logits_concat := snd st in
  let batch_size := shape0 output_logit in
  let cols := shape1 output_logit in
  np_bind
    (if step + batch_size <? n then
       set_block logits_concat max_len step (step + batch_size) cols output_logit
     else
       set_block logits_concat max_len step n cols
         (rows_to output_logit (Z.of_nat n - Z.of_nat step)))
    (fun logits_concat' => NpOk (step + batch_size, logits_concat')).

Fixpoint fill_loop (n max_len : nat) (batches : list ndarray)
    (st : nat * list (list float)) : np_result (nat * list (list float)) :=
  match batches with
  | [] => NpOk st
  | output_logit :: rest =>
      np_bind (fill_step n max_len st output_logit) (fill_loop n max_len rest)
  end.

(** [create_and_fill_np_array(start_or_end_logits, dataset, max_len)] with
    [n = len(dataset)]; the result has shape [(n, max_len)]. *)
Definition create_and_fill_np_array (start_or_end_logits : list ndarray)
    (n max_len : nat) : np_result (list (list float)) :=
  np_bind (fill_loop n max_len start_or_end_logits (0, np_full n max_len (-100)%float))
          (fun st => NpOk (snd st)).

(** A row of a batch as it stands in the gathered array: followed by -100 up
    to [max_len] items. *)
Definition padded (max_len : nat) (row : list float) : list float :=
  row ++ repeat (-100)%float (max_len - length row).

(** All rows of the batches, in order. *)
Definition batch_rows (batches : list ndarray) : list (list float) :=
  concat (map rows batches).

(* ------------------------------------------------------------------ *)
(** ** From the gathered logits to the rows of the output file
       (lines 1212-1238 and 1467-1495) *)

(** What [post_processing_function] returns: the [predictions] (one
    [{"id", "prediction_text"}] per entry of the answers) and the
    [label_ids] (one [{"id"}] per example) of an [EvalPrediction]. *)
Record eval_prediction : Type := {
  ep_predictions : list (string * string);
  ep_label_ids : list string
}.

(** [max(l)] on a list of sizes. *)
Definition py_max (l : list nat) : np_result nat :=
  match l with
  | [] => NpRaise ValueError_max_empty
  | x :: xs => NpOk (fold_left Nat.max xs x)
  end.

Section Evaluation.
Variable np_exp : float -> float.
Variable np_sum : list float -> float.
(** [args] and [context_list] are variables of [main] that the closures
    read. *)
Variable cfg : config.
Variable context_list : list string.

(** Lines 1212-1238; [predictions.items()] are the entries of the dictionary
    that [postprocess_qa_predictions] returns. *)
Definition post_processing_function (examples : list example)
    (features : list feature) (predictions : list (list (list float)))
    : result eval_prediction :=
  l <- run np_exp np_sum examples features context_list predictions cfg ;;
  Ok {| ep_predictions := all_predictions l;
        ep_label_ids := map ex_id examples |}.

(** Lines 1467-1495 up to the rows handed to the csv writer: each is an
    [{"id", "answer"}], the key [prediction_text] renamed. *)
Definition evaluation_rows (all_start_logits all_end_logits : list ndarray)
    (eval_examples : list example) (eval_dataset : list feature)
    : np_result (result (list (string * string))) :=
  np_bind (py_max (map shape1 all_start_logits)) (fun max_len =>
  np_bind (create_and_fill_np_array all_start_logits (length eval_dataset) max_len)
          (fun start_logits_concat =>
  np_bind (create_and_fill_np_array all_end_logits (length eval_dataset) max_len)
          (fun end_logits_concat =>
  NpOk (prediction <- post_processing_function eval_examples eval_dataset
                        [start_logits_concat; end_logits_concat] ;;
        Ok (ep_predictions prediction))))).

End Evaluation.

(* ------------------------------------------------------------------ *)
(** ** Preparing the features (lines 1092-1137) *)

(** What the tokenizer returns for a batch of (question, context) pairs, as
    far as the function reads it: one entry per window in each list. *)
Record batch_encoding : Type := {
  input_ids : list (list Z);
  enc_offset_mapping : list (list (list Z));
  enc_sequence_ids : list (list (option nat));
  overflow_to_sample_mapping : list Z
}.

(** The batch of examples that [Dataset.map] hands over: a dictionary of
    columns. *)
Record example_columns : Type := {
  col_id : list string;
  col_question : list string;
  col_relevant : list Z
}.

(** The rows of the same examples, as [postprocess_qa_predictions] iterates
    over them. *)
Definition examples_of_columns (examples : example_columns) : list example :=
  map (fun ir => {| ex_id := fst ir; relevant := snd ir |})
      (combine (col_id examples) (col_relevant examples)).

(** A list comprehension whose items may raise. *)
Fixpoint traverse {A B : Type} (f : A -> result B) (l : list A) : result (list B) :=
  match l with
  | [] => Ok []
  | a :: rest =>
      b <- f a ;;
      bs <- traverse f rest ;;
      Ok (b :: bs)
  end.

(** [sequence_ids[k] == context_index]. *)
Definition is_context (context_index : nat) (sid : option nat) : bool :=
  match sid with
  | Some j => j =? context_index
  | None => false
  end.

(** One item of the comprehension of lines 1131-1134. *)
Definition mask_offset (context_index : nat) (sequence_ids : list (option nat))
    (ko : nat * list Z) : result (option (list Z)) :=
  sid <- getitem_nat sequence_ids (fst ko) ;;
  Ok (if is_context context_index sid then Some (snd ko) else None).

Section Prepare.
(** [str.lstrip], the tokenizer with the keyword arguments of lines 1100-1109,
    and the variables of [main] that the function reads. *)
Variable lstrip : string -> string.
Variable tokenizer : list string -> list string -> batch_encoding.
Variable pad_on_right : bool.
Variable context_list : list string.

(** The body of the loop of line 1120 for window [i]. *)
Definition prepare_window (examples : example_columns)
    (tokenized_examples : batch_encoding) (i : nat) : result feature :=
  sequence_ids <- getitem_nat (enc_sequence_ids tokenized_examples) i ;;
  let context_index := if pad_on_right then 1 else 0 in
  sample_index <- getitem_nat (overflow_to_sample_mapping tokenized_examples) i ;;
  eid <- getitem (col_id examples) sample_index ;;
  offsets_i <- getitem_nat (enc_offset_mapping tokenized_examples) i ;;
  masked <- traverse (mask_offset context_index sequence_ids) (enumerate offsets_i) ;;
  Ok {| example_id := eid;
        offset_mapping := masked;
        token_is_max_context := None |}.

(** The features of a batch of examples: the columns [example_id] and
    [offset_mapping] of the returned encoding, row by row. *)
Definition prepare_validation_features (examples : example_columns)
    : result (list feature) :=
  second_sentence <- traverse (getitem context_list) (col_relevant examples) ;;
  let tokenized_examples :=
    tokenizer (map lstrip (col_question examples)) second_sentence in
  traverse (prepare_window examples tokenized_examples)
           (seq 0 (length (input_ids tokenized_examples))).

End Prepare.

(* ------------------------------------------------------------------ *)
(** ** The checks on the command line (lines 802-824) and the data files
    (lines 896-910) *)

(** The fields of the parsed arguments that these lines read; a missing
    option is [None]. *)
Record args : Type := {
  dataset_name : option string;
  dataset_config_name : option string;
  train_file : option string;
  validation_file : option string;
  test_file : option string;
  push_to_hub : bool;
  output_dir : option string
}.

Inductive args_exn : Type :=
| ValueError_need_data
| AssertionError (message : string)
| AttributeError.

Inductive args_result (A : Type) : Type :=
| ArgsOk (a : A)
| ArgsRaise (e : args_exn).
Arguments ArgsOk {A} a.
Arguments ArgsRaise {A} e.

Definition and_then {A B : Type} (r : args_result A) (k : A -> args_result B)
    : args_result B :=
  match r with
  | ArgsOk a => k a
  | ArgsRaise e => ArgsRaise e
  end.

(** [s.split(".")]: the pieces between the dots. *)
Fixpoint split_dot (s : string) : list string :=
  match s with
  | EmptyString => [EmptyString]
  | String c rest =>
      if Ascii.eqb c "."%char then EmptyString :: split_dot rest
      else match split_dot rest with
           | [] => [String c EmptyString]
           | piece :: pieces => String c piece :: pieces
           end
  end.

(** [file.split(".")[-1]]; the list of pieces is never empty. *)
Definition extension (file : string) : string := last (split_dot file) EmptyString.

(** [extension in ["csv", "json"]]. *)
Definition csv_or_json (ext : string) : bool :=
  existsb (String.eqb ext) ["csv"%string; "json"%string].

(** One of the three [if ... is not None: ... assert ...] of lines 812-820. *)
Definition check_extension (message : string) (file : option string)
    : args_result unit :=
  match file with
  | None => ArgsOk tt
  | Some f =>
      if csv_or_json (extension f) then ArgsOk tt
      else ArgsRaise (AssertionError message)
  end.

(** Lines 811-822: the checks that run once some source of data is given. *)
Definition later_checks (a : args) : args_result args :=
  and_then (check_extension "`train_file` should be a csv or a json file."
              (train_file a)) (fun _ =>
  and_then (check_extension "`validation_file` should be a csv or a json file."
              (validation_file a)) (fun _ =>
  and_then (check_extension "`test_file` should be a csv or a json file."
              (test_file a)) (fun _ =>
  if push_to_hub a then
    match output_dir a with
    | Some _ => ArgsOk a
    | None =>
        ArgsRaise (AssertionError
          "Need an `output_dir` to create a repo when `--push_to_hub` is passed.")
    end
  else ArgsOk a))).

(** Lines 803-824 of [parse_args]. *)
Definition sanity_checks (a : args) : args_result args :=
  match dataset_name a, train_file a, validation_file a, test_file a with
  | None, None, None, None => ArgsRaise ValueError_need_data
  | _, _, _, _ => later_checks a
  end.

(** The call of [load_dataset] that lines 896-910 of [main] make. *)
Inductive load_dataset_call : Type :=
| LoadNamed (name : string) (config_name : option string)
| LoadFiles (extension : string) (data_files : dict string string).

Definition set_file (data_files : dict string string) (key : string)
    (file : option string) : dict string string :=
  match file with
  | Some f => set String.eqb data_files key f
  | None => data_files
  end.

Definition raw_datasets_call (a : args) : args_result load_dataset_call :=
  match dataset_name a with
  | Some name => ArgsOk (LoadNamed name (dataset_config_name a))
  | None =>
      let data_files := [] in
      let data_files := set_file data_files "train" (train_file a) in
      let data_files := set_file data_files "validation" (validation_file a) in
      let data_files := set_file data_files "test" (test_file a) in
      match validation_file a with
      | None => ArgsRaise AttributeError
      | Some f => ArgsOk (LoadFiles (extension f) data_files)
      end
  end.

(* ------------------------------------------------------------------ *)
(** ** Notions used in the further properties *)

(** [t] occurs in [s] as a contiguous piece. *)
Definition is_substring (t s : string) : Prop :=
  exists pre post, s = (pre ++ t ++ post)%string.

(** No score of the list is [nan]. *)
Definition no_nan_scores (l : list prelim_prediction) : Prop :=
  Forall (fun p => is_nan (score p) = false) l.

(** [p] may stand before [q] in the ranking: [p]'s score is not below [q]'s. *)
Definition descending (p q : prelim_prediction) : Prop :=
  (score p <? score q)%float = false.

(** The ids in the order of their first occurrence: the keys a dictionary
    ends up with when it is assigned at each id in turn. *)
Fixpoint first_occurrences (seen ids : list string) : list string :=
  match ids with
  | [] => []
  | k :: rest =>
      if existsb (String.eqb k) seen then first_occurrences seen rest
      else k :: first_occurrences (seen ++ [k]) rest
  end.

(** [i] is a valid Python index into a list of length [n]. *)
Definition index_in_range (n : nat) (i : Z) : Prop :=
  (- Z.of_nat n <= i < Z.of_nat n)%Z.

(** The encoding has what the loop of line 1120 reads: for every window
    counted by [input_ids], its sequence ids, a sample index that points at an
    example of the batch, and its offsets, which are not more than the
    sequence ids. *)
Definition encoding_fits (examples : example_columns) (tok : batch_encoding) : Prop :=
  forall i, i < length (input_ids tok) ->
    exists sids sample offs,
      nth_error (enc_sequence_ids tok) i = Some sids
      /\ nth_error (overflow_to_sample_mapping tok) i = Some sample
      /\ index_in_range (length (col_id examples)) sample
      /\ nth_error (enc_offset_mapping tok) i = Some offs
      /\ length offs <= length sids.

(* ------------------------------------------------------------------ *)
(** ** Inputs used in the further examples *)

Fixpoint lstrip_spaces (s : string) : string :=
  match s with
  | String " "%char rest => lstrip_spaces rest
  | _ => s
  end.

(** One question over the context [hello world], cut in two windows:
    [CLS who SEP hello world SEP] and [CLS who SEP world SEP]. *)
Definition two_windows : batch_encoding :=
  {| input_ids := [[101; 7; 102; 8; 9; 102]; [101; 7; 102; 9; 102]]%Z;
     enc_offset_mapping :=
       [[[0; 0]; [0; 3]; [0; 0]; [0; 5]; [6; 11]; [0; 0]];
        [[0; 0]; [0; 3]; [0; 0]; [6; 11]; [0; 0]]]%Z;
     enc_sequence_ids :=
       [[None; Some 0; None; Some 1; Some 1; None];
        [None; Some 0; None; Some 1; None]];
     overflow_to_sample_mapping := [0; 0]%Z |}.

Definition two_window_tokenizer (questions contexts : list string) : batch_encoding :=
  two_windows.

Definition one_question : example_columns :=
  {| col_id := ["q1"%string];
     col_question := [" who"%string];
     col_relevant := [0%Z] |}.

Definition first_window_feature : feature :=
  {| example_id := "q1"%string;
     offset_mapping := [None; None; None; Some [0; 5]%Z; Some [6; 11]%Z; None];
     token_is_max_context := None |}.

Definition train_only_args : args :=
  {| dataset_name := None;
     dataset_config_name := None;
     train_file := Some "data/train.json"%string;
     validation_file := None;
     test_file := None;
     push_to_hub := false;
     output_dir := None |}.

Definition valid_file_args : args :=
  {| dataset_name := None;
     dataset_config_name := None;
     train_file := Some "data/train.json"%string;
     validation_file := Some "data/valid.v2.json"%string;
     test_file := None;
     push_to_hub := true;
     output_dir := Some "out"%string |}.

(* ------------------------------------------------------------------ *)
(** * Properties *)

(** ** The error monad *)

Lemma bind_Ok (A B : Type) (r : result A) (k : A -> result B) (b : B) :
  bind r k = Ok b -> exists a, r = Ok a /\ k a = Ok b.
Proof.
  destruct r as [a | e]; simpl; intros H.
  - exists a. split; [reflexivity | exact H].
  - discriminate H.
Qed.

Lemma bind_Raise (A B : Type) (r : result A) (k : A -> result B) (e : exn) :
  bind r k = Raise e -> r = Raise e \/ exists a, r = Ok a /\ k a = Raise e.
Proof.
  destruct r as [a | e']; simpl; intros H.
  - right. exists a. split; [reflexivity | exact H].
  - left. inversion H. reflexivity.
Qed.

Ltac split_bind H :=
  let a := fresh "a" in
  let Ha := fresh "Ha" in
  apply bind_Raise in H; destruct H as [H | (a & Ha & H)].

Lemma getitem_nat_Raise (A : Type) (l : list A) (i : nat) (e : exn) :
  getitem_nat l i = Raise e -> e = IndexError.
Proof.
  unfold getitem_nat. destruct (nth_error l i); intros H; inversion H; reflexivity.
Qed.

Lemma getitem_Raise (A : Type) (l : list A) (i : Z) (e : exn) :
  getitem l i = Raise e -> e = IndexError.
Proof.
  unfold getitem.
  destruct (0 <=? i)%Z; [apply getitem_nat_Raise |].
  destruct (- Z.of_nat (length l) <=? i)%Z; [apply getitem_nat_Raise |].
  intros H; inversion H; reflexivity.
Qed.

(** ** Which exceptions come from where *)



Section LoopExceptions.
Variable np_exp : float -> float.
Variable np_sum : list float -> float.
Variable cfg : config.
Variable features : list feature.
Variable context_list : list string.
Variables all_start_logits all_end_logits : list (list float).

Lemma feature_step_Raise st i e :
  feature_step cfg features all_start_logits all_end_logits st i = Raise e ->
  e = IndexError.
Proof.
  unfold feature_step. intros H.
  do 5 (split_bind H; [now apply getitem_nat_Raise in H |]).
  discriminate H.
Qed.

Lemma features_loop_Raise fi : forall st e,
  features_loop cfg features all_start_logits all_end_logits fi st = Raise e ->
  e = IndexError.
Proof.
  induction fi as [| i fi IH]; simpl; intros st e H.
  - discriminate H.
  - split_bind H.
    + now apply feature_step_Raise in H.
    + now apply IH in H.
Qed.

Lemma pick_answer_Raise ns preds e :
  pick_answer cfg ns preds = Raise e -> loop_exn e.
Proof.
  unfold pick_answer, loop_exn.
  destruct (negb (version_2_with_negative cfg)).
  - intros H. split_bind H; [left; now apply getitem_nat_Raise in H | discriminate H].
  - destruct (first_non_empty preds); [destruct ns |]; intros H; inversion H; auto.
Qed.

Lemma process_example_Raise ns fi ex e :
  process_example np_exp np_sum cfg features context_list
    all_start_logits all_end_logits ns fi ex = Raise e ->
  loop_exn e.
Proof.
  unfold process_example. intros H.
  split_bind H; [left; now apply features_loop_Raise in H |].
  split_bind H; [left; now apply getitem_Raise in H |].
  split_bind H; [now apply pick_answer_Raise in H | discriminate H].
Qed.

Lemma examples_loop_Raise fpe rows : forall l e,
  examples_loop np_exp np_sum cfg features context_list
    all_start_logits all_end_logits fpe rows l = Raise e ->
  loop_exn e.
Proof.
  induction rows as [| [idx ex] rows IH]; simpl; intros l e H.
  - discriminate H.
  - split_bind H.
    + now apply process_example_Raise in H.
    + now apply IH in H.
Qed.

End LoopExceptions.

Lemma group_features_Raise e2i rows : forall fpe e,
  group_features e2i rows fpe = Raise e -> e = KeyError.
Proof.
  induction rows as [| [i feat] rows IH]; simpl; intros fpe e H.
  - discriminate H.
  - destruct (get String.eqb e2i (example_id feat)).
    + now apply IH in H.
    + inversion H; reflexivity.
Qed.

(** Past the two checks of lines 81-86, only [KeyError], [IndexError] and
    [UnboundLocalError] can be raised. *)
Lemma run_after_checks np_exp np_sum examples features context_list predictions cfg e :
  length predictions = 2 ->
  length (nth 0 predictions []) = length features ->
  run np_exp np_sum examples features context_list predictions cfg = Raise e ->
  e = KeyError \/ loop_exn e.
Proof.
  intros H2 Hn. unfold run.
  rewrite H2, Hn, !Nat.eqb_refl. simpl.
  intros H. split_bind H.
  - left. now apply group_features_Raise in H.
  - right. now apply examples_loop_Raise in H.
Qed.

Lemma postprocess_Raise np_exp np_sum examples features context_list predictions cfg e :
  postprocess_qa_predictions np_exp np_sum examples features context_list predictions cfg
    = Raise e ->
  run np_exp np_sum examples features context_list predictions cfg = Raise e.
Proof.
  unfold postprocess_qa_predictions. intros H.
  split_bind H; [exact H | discriminate H].
Qed.

(** ** The checks on the arguments *)

(** C9: when [predictions] does not have exactly two elements, the call
    raises the [ValueError] of line 82, whatever the other arguments are (in
    particular whether or not the count of logits matches the count of
    features); when it has two, that error is not raised. *)
Theorem predictions_pair_checked_first :
  forall np_exp np_sum examples features context_list predictions cfg,
    (length predictions <> 2 ->
     postprocess_qa_predictions np_exp np_sum examples features context_list
       predictions cfg = Raise ValueError_predictions_pair)
    /\ (length predictions = 2 ->
        postprocess_qa_predictions np_exp np_sum examples features context_list
          predictions cfg <> Raise ValueError_predictions_pair).
Proof.
  intros np_exp np_sum examples features context_list predictions cfg. split.
  - intros Hlen. unfold postprocess_qa_predictions, run.
    apply Nat.eqb_neq in Hlen. rewrite Hlen. reflexivity.
  - intros Hlen Hraise. apply postprocess_Raise in Hraise.
    destruct (Nat.eq_dec (length (nth 0 predictions [])) (length features)) as [Hn | Hn].
    + apply run_after_checks in Hraise; trivial.
      destruct Hraise as [H | [H | H]]; discriminate H.
    + unfold run in Hraise. rewrite Hlen in Hraise. simpl in Hraise.
      apply Nat.eqb_neq in Hn. rewrite Hn in Hraise. discriminate Hraise.
Qed.

Lemma predictions_pair_checked_first_witness :
  postprocess_qa_predictions exp_approx sum_left [hello_example] [hello_feature]
    ["hello world"%string] [ [ [0; 5; 1; 0]%float ] ] default_config
  = Raise ValueError_predictions_pair.
Proof.
  apply (proj1 (predictions_pair_checked_first exp_approx sum_left [hello_example]
                  [hello_feature] ["hello world"%string] [ [ [0; 5; 1; 0]%float ] ]
                  default_config)).
  simpl. discriminate.
Defined.

(** C2: let [n] be the number of start-logit vectors and of end-logit vectors
    handed in.  If [n] differs from the number of features the call raises the
    [ValueError] of line 86, whatever the examples, contexts and logits are, so
    no example is processed and nothing is returned; if [n] equals the number
    of features that error is not raised. *)
Theorem shape_mismatch_fails_fast :
  forall np_exp np_sum examples features context_list all_start_logits all_end_logits cfg n,
    length all_start_logits = n ->
    length all_end_logits = n ->
    (n <> length features ->
     postprocess_qa_predictions np_exp np_sum examples features context_list
       [all_start_logits; all_end_logits] cfg
     = Raise (ValueError_shape_mismatch n (length features)))
    /\ (n = length features ->
        forall a b,
          postprocess_qa_predictions np_exp np_sum examples features context_list
            [all_start_logits; all_end_logits] cfg
          <> Raise (ValueError_shape_mismatch a b)).
Proof.
  intros np_exp np_sum examples features context_list starts ends cfg n Hs He. split.
  - intros Hn. unfold postprocess_qa_predictions, run. simpl.
    rewrite Hs. apply Nat.eqb_neq in Hn. rewrite Hn. reflexivity.
  - intros Hn a b Hraise. apply postprocess_Raise in Hraise.
    apply run_after_checks in Hraise; simpl; try congruence.
    destruct Hraise as [H | [H | H]]; discriminate H.
Qed.

Lemma shape_mismatch_fails_fast_witness :
  postprocess_qa_predictions exp_approx sum_left [hello_example] [hello_feature]
    ["hello world"%string] [ [] ; [] ] default_config
  = Raise (ValueError_shape_mismatch 0 1).
Proof.
  apply (proj1 (shape_mismatch_fails_fast exp_approx sum_left [hello_example]
                  [hello_feature] ["hello world"%string] [] [] default_config
                  eq_refl eq_refl)).
  simpl. discriminate.
Defined.

(** ** Dictionaries *)

Section DictFacts.
Variables K V : Type.
Variable eqb : K -> K -> bool.
Hypothesis eqb_eq : forall x y, eqb x y = true <-> x = y.

Lemma keys_set_present (d : dict K V) k v :
  In k (keys d) -> keys (set eqb d k v) = keys d.
Proof.
  induction d as [| [k' v'] d IH]; simpl; intros Hin.
  - contradiction.
  - destruct (eqb k k') eqn:E; simpl.
    + reflexivity.
    + f_equal. apply IH. destruct Hin as [Heq | Hin]; [| exact Hin].
      subst k'. assert (eqb k k = true) by now apply eqb_eq. congruence.
Qed.

Lemma keys_set_new (d : dict K V) k v :
  ~ In k (keys d) -> keys (set eqb d k v) = keys d ++ [k].
Proof.
  induction d as [| [k' v'] d IH]; simpl; intros Hnot.
  - reflexivity.
  - destruct (eqb k k') eqn:E.
    + apply eqb_eq in E. subst k'. tauto.
    + simpl. f_equal. apply IH. tauto.
Qed.

Lemma in_keys_set (d : dict K V) k v k' :
  In k' (keys (set eqb d k v)) <-> k' = k \/ In k' (keys d).
Proof.
  induction d as [| [k0 v0] d IH]; simpl.
  - intuition congruence.
  - destruct (eqb k k0) eqn:E; simpl.
    + apply eqb_eq in E. subst k0. intuition congruence.
    + rewrite IH. tauto.
Qed.

Lemma get_set_same (d : dict K V) k v : get eqb (set eqb d k v) k = Some v.
Proof.
  assert (Hkk : eqb k k = true) by now apply eqb_eq.
  induction d as [| [k' v'] d IH]; simpl.
  - now rewrite Hkk.
  - destruct (eqb k k') eqn:E; simpl; rewrite E; [reflexivity | exact IH].
Qed.

Lemma get_set_other (d : dict K V) k v k' :
  k' <> k -> get eqb (set eqb d k v) k' = get eqb d k'.
Proof.
  intros Hne.
  assert (Hk : eqb k' k = false).
  { destruct (eqb k' k) eqn:E; [apply eqb_eq in E; contradiction | reflexivity]. }
  induction d as [| [k0 v0] d IH]; simpl.
  - now rewrite Hk.
  - destruct (eqb k k0) eqn:E; simpl.
    + apply eqb_eq in E. subst k0. now rewrite Hk.
    + now rewrite IH.
Qed.

Lemma in_keys_get (d : dict K V) k :
  In k (keys d) -> exists v, get eqb d k = Some v.
Proof.
  induction d as [| [k' v'] d IH]; simpl; intros Hin.
  - contradiction.
  - destruct (eqb k k') eqn:E; [now exists v' |].
    apply IH. destruct Hin as [Heq | Hin]; [| exact Hin].
    subst k'. assert (eqb k k = true) by now apply eqb_eq. congruence.
Qed.

End DictFacts.

Lemma map_snd_enumerate (A : Type) (l : list A) : map snd (enumerate l) = l.
Proof.
  unfold enumerate. generalize 0.
  induction l as [| a l IH]; simpl; intros n; [reflexivity | now rewrite IH].
Qed.

(** ** What the loop over the examples writes *)

Lemma pick_answer_score_diff cfg ns preds a d :
  pick_answer cfg ns preds = Ok (a, d) ->
  if version_2_with_negative cfg then exists x, d = Some x else d = None.
Proof.
  unfold pick_answer. destruct (version_2_with_negative cfg); simpl.
  - destruct (first_non_empty preds); [| discriminate].
    destruct ns; [| discriminate].
    intros H. inversion H. eauto.
  - intros H. apply bind_Ok in H. destruct H as (p & _ & H). now inversion H.
Qed.


Section LoopWrites.
Variable np_exp : float -> float.
Variable np_sum : list float -> float.
Variable cfg : config.
Variable features : list feature.
Variable context_list : list string.
Variables all_start_logits all_end_logits : list (list float).
Variable fpe : dict nat (list nat).

Let process := process_example np_exp np_sum cfg features context_list
                 all_start_logits all_end_logits.
Let loop := examples_loop np_exp np_sum cfg features context_list
              all_start_logits all_end_logits fpe.

Lemma process_example_score_diff ns fi ex r :
  process ns fi ex = Ok r ->
  if version_2_with_negative cfg then exists x, score_diff r = Some x
  else score_diff r = None.
Proof.
  unfold process, process_example. intros H.
  apply bind_Ok in H. destruct H as (st & _ & H).
  apply bind_Ok in H. destruct H as (context & _ & H).
  apply bind_Ok in H. destruct H as ([a d] & Hpick & H).
  inversion H; subst r; simpl.
  exact (pick_answer_score_diff _ _ _ Hpick).
Qed.

Lemma record_example_covered ids l ns fi ex r :
  covered cfg ids l ->
  process ns fi ex = Ok r ->
  covered cfg (ids ++ [ex_id ex]) (record_example l ex r).
Proof.
  intros [Hkeys Hdiff] Hr. apply process_example_score_diff in Hr.
  unfold covered, record_example; simpl. split.
  - intros k Hin. rewrite !(in_keys_set String.eqb String.eqb_eq).
    apply in_app_or in Hin. destruct Hin as [Hin | [Heq | []]].
    + destruct (Hkeys k Hin). tauto.
    + subst k. tauto.
  - destruct (version_2_with_negative cfg).
    + destruct Hr as (x & ->). destruct Hdiff as (d & -> & Hd). simpl.
      eexists. split; [reflexivity |].
      intros k Hin. rewrite (in_keys_set String.eqb String.eqb_eq).
      apply in_app_or in Hin. destruct Hin as [Hin | [Heq | []]]; auto.
    + now rewrite Hr.
Qed.

Lemma examples_loop_covered rows : forall ids l l',
  covered cfg ids l ->
  loop rows l = Ok l' ->
  covered cfg (ids ++ map ex_id (map snd rows)) l'.
Proof.
  induction rows as [| [idx ex] rows IH]; simpl; intros ids l l' Hcov Hloop.
  - inversion Hloop; subst l'. now rewrite app_nil_r.
  - apply bind_Ok in Hloop. destruct Hloop as (r & Hr & Hloop).
    apply (IH (ids ++ [ex_id ex])) in Hloop.
    + now rewrite <- app_assoc in Hloop.
    + eapply record_example_covered; eassumption.
Qed.

(** With pairwise distinct ids, the keys of [all_predictions] grow by the
    ids of the examples in their order. *)
Lemma examples_loop_keys rows : forall l l',
  NoDup (keys (all_predictions l) ++ map ex_id (map snd rows)) ->
  loop rows l = Ok l' ->
  keys (all_predictions l') = keys (all_predictions l) ++ map ex_id (map snd rows).
Proof.
  induction rows as [| [idx ex] rows IH]; simpl; intros l l' Hnd Hloop.
  - inversion Hloop; subst l'. now rewrite app_nil_r.
  - apply bind_Ok in Hloop. destruct Hloop as (r & Hr & Hloop).
    assert (Hnew : keys (all_predictions (record_example l ex r))
                   = keys (all_predictions l) ++ [ex_id ex]).
    { simpl. apply (keys_set_new String.eqb String.eqb_eq).
      apply NoDup_remove_2 in Hnd. intros Hin. apply Hnd.
      apply in_or_app. now left. }
    apply IH in Hloop.
    + rewrite Hloop, Hnew, <- app_assoc. reflexivity.
    + rewrite Hnew, <- app_assoc. exact Hnd.
Qed.

End LoopWrites.

Lemma initial_locals_covered cfg : covered cfg [] (initial_locals cfg).
Proof.
  unfold covered, initial_locals; simpl. split.
  - intros k [].
  - destruct (version_2_with_negative cfg); [| reflexivity].
    exists []. split; [reflexivity | intros k []].
Qed.

Lemma run_Ok np_exp np_sum examples features context_list predictions cfg l :
  run np_exp np_sum examples features context_list predictions cfg = Ok l ->
  exists fpe,
    examples_loop np_exp np_sum cfg features context_list
      (nth 0 predictions []) (nth 1 predictions []) fpe
      (enumerate examples) (initial_locals cfg) = Ok l.
Proof.
  unfold run.
  destruct (negb (length predictions =? 2)); [discriminate |].
  destruct (negb (length (nth 0 predictions []) =? length features)); [discriminate |].
  intros H. apply bind_Ok in H. destruct H as (fpe & _ & H). now exists fpe.
Qed.

(** For a call that returns with pairwise distinct example ids, the returned
    dictionary has the examples' ids as its keys, in the examples' order. *)
Lemma answers_follow_examples np_exp np_sum examples features context_list predictions cfg l :
  NoDup (map ex_id examples) ->
  run np_exp np_sum examples features context_list predictions cfg = Ok l ->
  keys (all_predictions l) = map ex_id examples.
Proof.
  intros Hnd Hrun. apply run_Ok in Hrun. destruct Hrun as (fpe & Hloop).
  apply examples_loop_keys in Hloop; rewrite map_snd_enumerate in *; simpl in *; assumption.
Qed.

(** ** What the call returns *)

(** C1, as the specification words it, fails: the call of the "hello world"
    scenario returns a single dictionary, not a tuple of results. *)
Lemma call_returns_no_tuple :
  exists v,
    postprocess_qa_predictions exp_approx sum_left [hello_example] [hello_feature]
      ["hello world"%string] hello_predictions default_config = Ok v
    /\ ~ spec_three_results default_config [hello_example] v.
Proof.
  eexists. split.
  - vm_compute. reflexivity.
  - intros (answers & nbests & H). simpl in H.
    destruct H as [H | H]; discriminate H.
Qed.

(** C1 (amended): a call that returns hands back one result, the dictionary
    [all_predictions] from example id to answer text (line 277).  The n-best
    dictionary and the score-diff dictionary are local to the call.  At the
    [return] the first two have an entry for every example; in null-answer
    mode the score-diff dictionary has a float for every example, and without
    null-answer mode it was never created. *)
Theorem call_returns_answers_only :
  forall np_exp np_sum examples features context_list predictions cfg v,
    postprocess_qa_predictions np_exp np_sum examples features context_list
      predictions cfg = Ok v ->
    exists l,
      run np_exp np_sum examples features context_list predictions cfg = Ok l
      /\ v = PyObject (PyAnswers (all_predictions l))
      /\ (forall ex, In ex examples ->
            (exists a, get String.eqb (all_predictions l) (ex_id ex) = Some a)
            /\ (exists n, get String.eqb (all_nbest_json l) (ex_id ex) = Some n))
      /\ (if version_2_with_negative cfg
          then exists d,
                 scores_diff_json l = Some d
                 /\ forall ex, In ex examples ->
                      exists x : float, get String.eqb d (ex_id ex) = Some x
          else scores_diff_json l = None).
Proof.
  intros np_exp np_sum examples features context_list predictions cfg v Hcall.
  unfold postprocess_qa_predictions in Hcall.
  apply bind_Ok in Hcall. destruct Hcall as (l & Hrun & Hret).
  exists l. split; [exact Hrun |]. split; [now inversion Hret |].
  destruct (run_Ok _ _ _ _ _ _ _ Hrun) as (fpe & Hloop).
  eapply examples_loop_covered in Hloop; [| apply initial_locals_covered].
  rewrite map_snd_enumerate in Hloop. simpl in Hloop.
  destruct Hloop as [Hkeys Hdiff]. split.
  - intros ex Hin. destruct (Hkeys (ex_id ex) (in_map ex_id _ _ Hin)) as [Ha Hn].
    split; apply (in_keys_get String.eqb String.eqb_eq); assumption.
  - destruct (version_2_with_negative cfg); [| exact Hdiff].
    destruct Hdiff as (d & Hd & Hall). exists d. split; [exact Hd |].
    intros ex Hin. apply (in_keys_get String.eqb String.eqb_eq).
    apply Hall. now apply in_map.
Qed.

Lemma call_returns_answers_only_witness :
  exists l,
    run exp_approx sum_left [hello_example] [one_token_feature]
      ["hello world"%string] ten_three_predictions null_config = Ok l
    /\ PyObject (PyAnswers [("q1"%string, EmptyString)])
       = PyObject (PyAnswers (all_predictions l))
    /\ (forall ex, In ex [hello_example] ->
          (exists a, get String.eqb (all_predictions l) (ex_id ex) = Some a)
          /\ (exists n, get String.eqb (all_nbest_json l) (ex_id ex) = Some n))
    /\ (if version_2_with_negative null_config
        then exists d,
               scores_diff_json l = Some d
               /\ forall ex, In ex [hello_example] ->
                    exists x : float, get String.eqb d (ex_id ex) = Some x
        else scores_diff_json l = None).
Proof.
  apply (call_returns_answers_only exp_approx sum_left [hello_example]
           [one_token_feature] ["hello world"%string] ten_three_predictions null_config).
  vm_compute. reflexivity.
Defined.

(** ** Scenarios *)

(** C4, as stated, fails: with [max_answer_length = 1] the answer of the
    "hello world" scenario is not "hello". *)
Lemma one_token_answer_is_not_hello :
  postprocess_qa_predictions exp_approx sum_left [hello_example] [hello_feature]
    ["hello world"%string] hello_predictions one_token_config
  <> Ok (PyObject (PyAnswers [("q1"%string, "hello"%string)])).
Proof.
  vm_compute. intros H. discriminate H.
Qed.

(** C4 (amended): in the "hello world" scenario with [max_answer_length = 1]
    the span of tokens 1-2 is not collected (its length 2 exceeds 1); the
    spans collected are (1,1) with score 5 + 1 = 6 and (2,2) with score
    1 + 6 = 7, the ranking puts (2,2) first, and the answer is "world". *)
Theorem one_token_answer_is_world :
  forall np_exp np_sum,
    span_prediction one_token_config hello_feature
      [0; 5; 1; 0]%float [0; 1; 6; 0]%float 1 2 = []
    /\ (exists st,
          features_loop one_token_config [hello_feature]
            [ [0; 5; 1; 0]%float ] [ [0; 1; 6; 0]%float ] [0] (None, []) = Ok st
          /\ snd st
             = [ {| offsets := (0, 5)%Z; score := 6; start_logit := 5; end_logit := 1 |};
                 {| offsets := (6, 11)%Z; score := 7; start_logit := 1; end_logit := 6 |} ]
          /\ kept_predictions one_token_config (fst st) (snd st)
             = [ {| offsets := (6, 11)%Z; score := 7; start_logit := 1; end_logit := 6 |};
                 {| offsets := (0, 5)%Z; score := 6; start_logit := 5; end_logit := 1 |} ])
    /\ postprocess_qa_predictions np_exp np_sum [hello_example] [hello_feature]
         ["hello world"%string] hello_predictions one_token_config
       = Ok (PyObject (PyAnswers [("q1"%string, "world"%string)])).
Proof.
  intros np_exp np_sum. split; [vm_compute; reflexivity |]. split.
  - eexists. split; [vm_compute; reflexivity |].
    split; vm_compute; reflexivity.
  - vm_compute. reflexivity.
Qed.

(** C5: null-answer mode, one example whose feature has two context tokens
    with empty character spans.  Four predictions are kept, all with empty
    text, so the guard of line 197 does not fire and the scan of line 221 runs
    past the end of the list. *)
Theorem scan_runs_past_the_end :
  forall np_exp np_sum,
    (exists st,
        features_loop null_config [zero_width_feature]
          [ [0; 1; 2]%float ] [ [0; 1; 2]%float ] [0] (None, []) = Ok st
        /\ let kept := map (resolve_text "hello world")
                           (kept_predictions null_config (fst st) (snd st)) in
           length kept = 4
           /\ Forall (fun p => t_text p = EmptyString) kept
           /\ guard kept = kept
           /\ first_non_empty (add_probabilities np_exp np_sum (guard kept)) = None)
    /\ postprocess_qa_predictions np_exp np_sum [hello_example] [zero_width_feature]
         ["hello world"%string] rising_predictions null_config
       = Raise IndexError.
Proof.
  intros np_exp np_sum. split.
  - eexists. split; [vm_compute; reflexivity |].
    cbv zeta. repeat split; try (vm_compute; reflexivity).
    vm_compute. repeat constructor.
  - vm_compute. reflexivity.
Qed.

(** C10: null-answer mode, an example with a feature followed by an example
    without any.  The second example does not get the placeholder answer: its
    answer is decided with the [null_score] left by the first example, and is
    the empty string.  With the two examples swapped there is no [null_score]
    yet and the call raises [UnboundLocalError].  Without null-answer mode the
    example without features gets "empty". *)
Theorem bare_example_in_null_mode :
  forall np_exp np_sum,
    postprocess_qa_predictions np_exp np_sum [hello_example; bare_example]
      [one_token_feature] ["hello world"%string] ten_three_predictions null_config
    = Ok (PyObject (PyAnswers [("q1"%string, EmptyString); ("q2"%string, EmptyString)]))
    /\ postprocess_qa_predictions np_exp np_sum [bare_example; hello_example]
         [one_token_feature] ["hello world"%string] ten_three_predictions null_config
       = Raise UnboundLocalError
    /\ postprocess_qa_predictions np_exp np_sum [hello_example; bare_example]
         [one_token_feature] ["hello world"%string] ten_three_predictions default_config
       = Ok (PyObject (PyAnswers [("q1"%string, "hello"%string);
                                  ("q2"%string, "empty"%string)])).
Proof.
  intros np_exp np_sum. repeat split; vm_compute; reflexivity.
Qed.

(** ** The order on binary64 numbers *)

Ltac compare_cases :=
  repeat match goal with
  | H : context [Z.compare ?a ?b] |- _ => destruct (Z.compare_spec a b)
  | H : context [Pos.compare_cont Eq ?a ?b] |- _ =>
      change (Pos.compare_cont Eq a b) with (Pos.compare a b) in *;
      destruct (Pos.compare_spec a b)
  | |- context [Z.compare ?a ?b] => destruct (Z.compare_spec a b)
  | |- context [Pos.compare_cont Eq ?a ?b] =>
      change (Pos.compare_cont Eq a b) with (Pos.compare a b) in *;
      destruct (Pos.compare_spec a b)
  end.

Lemma SFltb_trans x y z :
  SFltb x y = true -> SFltb y z = true -> SFltb x z = true.
Proof.
  unfold SFltb, SFcompare.
  destruct x as [sx | sx | | sx mx ex], y as [sy | sy | | sy my ey],
           z as [sz | sz | | sz mz ez];
    try destruct sx; try destruct sy; try destruct sz;
    try reflexivity; try discriminate; intros H1 H2;
    compare_cases; simpl in *; try reflexivity; try discriminate; try lia.
Qed.

Lemma SFltb_irrefl x : SFltb x x = false.
Proof.
  unfold SFltb, SFcompare.
  destruct x as [s | s | | s m e]; try destruct s; try reflexivity;
    rewrite Z.compare_refl;
    change (Pos.compare_cont Eq m m) with (Pos.compare m m);
    rewrite Pos.compare_refl; reflexivity.
Qed.

(** [<] on floats is transitive and irreflexive, [nan] included (every
    comparison with [nan] is false). *)
Lemma float_ltb_trans (x y z : float) :
  (x <? y)%float = true -> (y <? z)%float = true -> (x <? z)%float = true.
Proof. rewrite !ltb_spec. apply SFltb_trans. Qed.

Lemma float_ltb_irrefl (x : float) : (x <? x)%float = false.
Proof. rewrite ltb_spec. apply SFltb_irrefl. Qed.

(** ** The loop over the features of an example *)

Section FeatureLoop.
Variable cfg : config.
Variable features : list feature.
Variables all_start_logits all_end_logits : list (list float).

Let null_of := null_logits all_start_logits all_end_logits.
Let min_of := min_null_of all_start_logits all_end_logits.

Lemma feature_step_Ok st i st' :
  feature_step cfg features all_start_logits all_end_logits st i = Ok st' ->
  exists s0 e0, null_of i = Some (s0, e0)
                /\ fst st' = update_min_null (fst st) s0 e0.
Proof.
  unfold feature_step, null_of, null_logits, getitem_nat. intros H.
  destruct (nth_error all_start_logits i) as [sl |]; [| discriminate H].
  destruct (nth_error all_end_logits i) as [el |]; [| discriminate H].
  destruct (nth_error features i) as [feat |]; [| discriminate H].
  destruct sl as [| s0 sl]; [discriminate H |].
  destruct el as [| e0 el]; [discriminate H |].
  simpl in H. inversion H; subst st'; simpl. now exists s0, e0.
Qed.

Let loop_invariant := min_null_invariant all_start_logits all_end_logits.

Lemma update_min_null_invariant seen i s0 e0 acc :
  null_of i = Some (s0, e0) ->
  loop_invariant seen acc ->
  exists m, update_min_null acc s0 e0 = Some m /\ min_of (seen ++ [i]) m.
Proof.
  intros Hi Hacc. destruct acc as [m0 |]; simpl in *.
  - destruct Hacc as [(i0 & s & e & Hin0 & Hi0 & Hm0) Hmin].
    destruct (s0 + e0 <? score m0)%float eqn:E.
    + exists (null_prediction s0 e0). split; [reflexivity |]. split.
      * exists i, s0, e0. repeat split; trivial. apply in_or_app. right. now left.
      * intros j s' e' Hin Hj. simpl.
        apply in_app_or in Hin. destruct Hin as [Hin | [<- | []]].
        -- destruct (s' + e' <? s0 + e0)%float eqn:E2; [| reflexivity].
           pose proof (Hmin j s' e' Hin Hj) as Hlt.
           rewrite (float_ltb_trans E2 E) in Hlt. discriminate Hlt.
        -- fold null_of in Hj. rewrite Hi in Hj. inversion Hj; subst.
           apply float_ltb_irrefl.
    + exists m0. split; [reflexivity |]. split.
      * exists i0, s, e. repeat split; trivial. apply in_or_app. now left.
      * intros j s' e' Hin Hj.
        apply in_app_or in Hin. destruct Hin as [Hin | [<- | []]].
        -- now apply (Hmin j).
        -- fold null_of in Hj. rewrite Hi in Hj. now inversion Hj; subst.
  - subst seen. exists (null_prediction s0 e0). split; [reflexivity |]. split.
    + exists i, s0, e0. repeat split; trivial. now left.
    + intros j s' e' [<- | []] Hj. fold null_of in Hj. rewrite Hi in Hj.
      inversion Hj; subst. apply float_ltb_irrefl.
Qed.

Lemma features_loop_invariant fi : forall seen st st',
  loop_invariant seen (fst st) ->
  features_loop cfg features all_start_logits all_end_logits fi st = Ok st' ->
  loop_invariant (seen ++ fi) (fst st').
Proof.
  induction fi as [| i fi IH]; simpl; intros seen st st' Hinv Hloop.
  - inversion Hloop; subst st'. now rewrite app_nil_r.
  - apply bind_Ok in Hloop. destruct Hloop as (st1 & Hstep & Hloop).
    apply feature_step_Ok in Hstep. destruct Hstep as (s0 & e0 & Hi & Hfst).
    destruct (update_min_null_invariant seen i (fst st) Hi Hinv) as (m & Hm & Hmin).
    replace (seen ++ i :: fi) with ((seen ++ [i]) ++ fi)
      by (rewrite <- app_assoc; reflexivity).
    apply (IH _ st1); [| exact Hloop].
    rewrite Hfst, Hm. exact Hmin.
Qed.


End FeatureLoop.

(** ** One example, stage by stage *)

Section Stages.
Variable np_exp : float -> float.
Variable np_sum : list float -> float.
Variable cfg : config.
Variable features : list feature.
Variable context_list : list string.
Variables all_start_logits all_end_logits : list (list float).

Lemma process_example_Ok ns fi ex r :
  process_example np_exp np_sum cfg features context_list
    all_start_logits all_end_logits ns fi ex = Ok r ->
  exists st context,
    features_loop cfg features all_start_logits all_end_logits fi (None, []) = Ok st
    /\ getitem context_list (relevant ex) = Ok context
    /\ nbest r = add_probabilities np_exp np_sum
                   (guard (map (resolve_text context)
                               (kept_predictions cfg (fst st) (snd st))))
    /\ null_score_after r = assign_null_score cfg ns (fst st)
    /\ pick_answer cfg (null_score_after r) (nbest r) = Ok (answer r, score_diff r).
Proof.
  unfold process_example. intros H.
  apply bind_Ok in H. destruct H as (st & Hloop & H).
  apply bind_Ok in H. destruct H as (context & Hctx & H).
  apply bind_Ok in H. destruct H as ([a d] & Hpick & H).
  inversion H; subst r; simpl in *.
  exists st, context. repeat split; assumption.
Qed.

Lemma softmax_length scores : length (softmax np_exp np_sum scores) = length scores.
Proof. unfold softmax. now rewrite !length_map. Qed.

Lemma add_probabilities_length l :
  length (add_probabilities np_exp np_sum l) = length l.
Proof.
  unfold add_probabilities.
  rewrite length_map, length_combine, softmax_length, length_map.
  apply Nat.min_id.
Qed.

Lemma add_probabilities_cons p l :
  exists prob rest,
    add_probabilities np_exp np_sum (p :: l)
    = {| text := t_text p; probability := prob;
         nb_start_logit := t_start_logit p; nb_end_logit := t_end_logit p |} :: rest.
Proof.
  unfold add_probabilities, softmax. simpl. eauto.
Qed.

End Stages.

Lemma guard_length l :
  1 <= length (guard l)
  /\ (length (guard l) = length l \/ (length (guard l) <= 2 /\ degenerate l = true)).
Proof.
  unfold guard. destruct l as [| p [| q l]]; simpl.
  - split; [lia | right; split; [lia | reflexivity]].
  - destruct (String.eqb (t_text p) EmptyString); simpl.
    + split; [lia | right; split; [lia | reflexivity]].
    + split; [lia | now left].
  - split; [lia | now left].
Qed.

Lemma slice_to_length (A : Type) (l : list A) (n : Z) :
  (0 <= n)%Z -> (Z.of_nat (length (slice_to l n)) <= n)%Z.
Proof.
  intros Hn. unfold slice_to, clamp_index.
  rewrite length_firstn.
  destruct (n <? 0)%Z eqn:E; [apply Z.ltb_lt in E; lia |]. lia.
Qed.

Lemma kept_predictions_length cfg min_null prelim :
  length (kept_predictions cfg min_null prelim)
  = length (best_predictions cfg min_null prelim)
    + (if null_added_back cfg min_null (best_predictions cfg min_null prelim)
       then 1 else 0).
Proof.
  unfold kept_predictions.
  destruct min_null as [m |].
  - destruct (null_added_back cfg (Some m) _); [rewrite length_app; simpl |]; lia.
  - unfold null_added_back. rewrite andb_false_r. simpl. lia.
Qed.

(** ** The n-best list *)

(** C7, as stated, fails: null-answer mode with [n_best_size = 1], a null
    score of 10 above the only span's score 0.  The cut keeps the null
    prediction, nothing is added back, the guard inserts the placeholder, and
    the n-best list has two entries. *)
Lemma nbest_list_longer_than_n_best_size :
  exists r st,
    process_example exp_approx sum_left null_config_one_best [one_token_feature]
      ["hello world"%string] [ [5; 0]%float ] [ [5; 0]%float ] None [0] hello_example
    = Ok r
    /\ features_loop null_config_one_best [one_token_feature]
         [ [5; 0]%float ] [ [5; 0]%float ] [0] (None, []) = Ok st
    /\ ~ spec_nbest_length null_config_one_best
           (null_added_back null_config_one_best (fst st)
              (best_predictions null_config_one_best (fst st) (snd st)))
           (length (nbest r)).
Proof.
  eexists. eexists. split; [vm_compute; reflexivity |].
  split; [vm_compute; reflexivity |].
  unfold spec_nbest_length. vm_compute. intros [_ H]. apply H. reflexivity.
Qed.

(** C7 (amended): the n-best list of an example has at least one entry.  When
    [n_best_size] is not negative it has at most
    [max 2 (n_best_size + 1)] entries if the null prediction was added back
    and at most [max 2 n_best_size] otherwise (the placeholder of line 198 can
    make it two); so the bound of the specification holds as soon as
    [n_best_size >= 2]. *)
Theorem nbest_length_bounds :
  forall np_exp np_sum cfg features context_list all_start_logits all_end_logits
         ns fi ex r st,
    process_example np_exp np_sum cfg features context_list
      all_start_logits all_end_logits ns fi ex = Ok r ->
    features_loop cfg features all_start_logits all_end_logits fi (None, []) = Ok st ->
    let added_back :=
      null_added_back cfg (fst st) (best_predictions cfg (fst st) (snd st)) in
    1 <= length (nbest r)
    /\ ((0 <= n_best_size cfg)%Z ->
        (Z.of_nat (length (nbest r))
         <= Z.max 2 (n_best_size cfg + (if added_back then 1 else 0)))%Z)
    /\ ((2 <= n_best_size cfg)%Z ->
        spec_nbest_length cfg added_back (length (nbest r))).
Proof.
  intros np_exp np_sum cfg features context_list starts ends ns fi ex r st Hr Hst.
  apply process_example_Ok in Hr.
  destruct Hr as (st' & context & Hst' & _ & Hnbest & _).
  rewrite Hst in Hst'. inversion Hst'; subst st'. clear Hst'.
  cbv zeta. rewrite Hnbest, add_probabilities_length.
  destruct (guard_length (map (resolve_text context)
                              (kept_predictions cfg (fst st) (snd st))))
    as [Hone Hlen].
  rewrite length_map, kept_predictions_length in Hlen.
  assert (Hbest : (0 <= n_best_size cfg)%Z ->
                  (Z.of_nat (length (best_predictions cfg (fst st) (snd st)))
                   <= n_best_size cfg)%Z)
    by (intros Hn; now apply slice_to_length).
  split; [exact Hone |].
  unfold spec_nbest_length. revert Hlen.
  destruct (null_added_back cfg (fst st) (best_predictions cfg (fst st) (snd st)));
    intros Hlen;
    (split; [intros Hn | intros Hn; split; [exact Hone |]]);
    (destruct Hlen as [Hlen | [Hlen _]]; [specialize (Hbest ltac:(lia)) |]; lia).
Qed.

Lemma nbest_length_bounds_witness :
  exists r st,
    process_example exp_approx sum_left null_config [one_token_feature]
      ["hello world"%string] [ [4; 1]%float ] [ [6; 2]%float ] None [0] hello_example
    = Ok r
    /\ features_loop null_config [one_token_feature]
         [ [4; 1]%float ] [ [6; 2]%float ] [0] (None, []) = Ok st
    /\ 1 <= length (nbest r)
    /\ ((0 <= n_best_size null_config)%Z ->
        (Z.of_nat (length (nbest r))
         <= Z.max 2 (n_best_size null_config
                     + (if null_added_back null_config (fst st)
                             (best_predictions null_config (fst st) (snd st))
                        then 1 else 0)))%Z)
    /\ ((2 <= n_best_size null_config)%Z ->
        spec_nbest_length null_config
          (null_added_back null_config (fst st)
             (best_predictions null_config (fst st) (snd st)))
          (length (nbest r))).
Proof.
  eexists. eexists. split; [vm_compute; reflexivity |].
  split; [vm_compute; reflexivity |].
  apply (nbest_length_bounds exp_approx sum_left null_config [one_token_feature]
           ["hello world"%string] [ [4; 1]%float ] [ [6; 2]%float ] None [0]
           hello_example);
    vm_compute; reflexivity.
Defined.

(** ** The null prediction *)

Ltac float_differs H :=
  apply (f_equal start_logit) in H; simpl in H;
  apply (f_equal (fun x => (x =? 0)%float)) in H;
  vm_compute in H; discriminate H.

Lemma offsets_eqb_eq (a b : Z * Z) : offsets_eqb a b = true <-> a = b.
Proof.
  destruct a as [a1 a2], b as [b1 b2]. unfold offsets_eqb. simpl.
  rewrite andb_true_iff, !Z.eqb_eq. split.
  - intros [-> ->]. reflexivity.
  - intros H. inversion H. auto.
Qed.

Lemma has_null_offsets_true predictions :
  has_null_offsets predictions = true
  <-> exists p, In p predictions /\ offsets p = (0, 0)%Z.
Proof.
  unfold has_null_offsets. rewrite existsb_exists.
  split; intros (p & Hp & H); exists p; (split; [exact Hp |]);
    now apply offsets_eqb_eq.
Qed.

(** When the tracked null prediction is missing from the kept predictions:
    exactly when the cut of line 172 removed it and some prediction that
    survived the cut has offsets (0, 0). *)
Lemma null_prediction_lost_iff cfg m prelim :
  version_2_with_negative cfg = true ->
  ~ In m (kept_predictions cfg (Some m) prelim)
  <-> ~ In m (best_predictions cfg (Some m) prelim)
      /\ exists p, In p (best_predictions cfg (Some m) prelim)
                   /\ offsets p = (0, 0)%Z.
Proof.
  intros Hv2. unfold kept_predictions, null_added_back. rewrite Hv2. simpl.
  destruct (has_null_offsets (best_predictions cfg (Some m) prelim)) eqn:E; simpl.
  - apply has_null_offsets_true in E. tauto.
  - split.
    + intros H. exfalso. apply H. apply in_or_app. right. now left.
    + intros [_ H]. apply has_null_offsets_true in H. congruence.
Qed.

(** C6: the tracked null prediction is not always forced back.  Null-answer
    mode with [n_best_size = 1] and one feature whose context token has the
    span (0, 0): the null prediction (logits 0 and 0, score 0) joins the pool,
    the cut of line 172 keeps the span prediction (score 10) and removes the
    null prediction, and the test of lines 175-179 finds the offsets (0, 0) on
    the span prediction, so nothing is appended: the kept predictions do not
    contain the null prediction, and the n-best list of the example holds the
    placeholder and the span prediction only.  With the same logits and a
    context token whose span is (0, 5) the removed null prediction is appended
    again. *)
Theorem null_prediction_not_added_back :
  let m := null_prediction 0 0 in
  let span_0_0 :=
    {| offsets := (0, 0)%Z; score := 10; start_logit := 5; end_logit := 5 |} in
  let span_0_5 :=
    {| offsets := (0, 5)%Z; score := 10; start_logit := 5; end_logit := 5 |} in
  (features_loop null_config_one_best [zero_span_feature]
     [ [0; 5]%float ] [ [0; 5]%float ] [0] (None, []) = Ok (Some m, [span_0_0])
   /\ with_null null_config_one_best (Some m) [span_0_0] = [span_0_0; m]
   /\ best_predictions null_config_one_best (Some m) [span_0_0] = [span_0_0]
   /\ kept_predictions null_config_one_best (Some m) [span_0_0] = [span_0_0]
   /\ ~ In m (kept_predictions null_config_one_best (Some m) [span_0_0])
   /\ ~ spec_null_forced_back null_config_one_best (Some m) [span_0_0]
   /\ forall np_exp np_sum,
        exists r,
          process_example np_exp np_sum null_config_one_best [zero_span_feature]
            ["hello world"%string] [ [0; 5]%float ] [ [0; 5]%float ] None [0]
            hello_example = Ok r
          /\ map (fun p => (text p, nb_start_logit p, nb_end_logit p)) (nbest r)
             = [("empty"%string, 0%float, 0%float); (EmptyString, 5%float, 5%float)])
  /\ (features_loop null_config_one_best [one_token_feature]
        [ [0; 5]%float ] [ [0; 5]%float ] [0] (None, []) = Ok (Some m, [span_0_5])
      /\ best_predictions null_config_one_best (Some m) [span_0_5] = [span_0_5]
      /\ kept_predictions null_config_one_best (Some m) [span_0_5] = [span_0_5; m]).
Proof.
  cbv zeta. split.
  - split; [vm_compute; reflexivity |].
    split; [vm_compute; reflexivity |].
    split; [vm_compute; reflexivity |].
    split; [vm_compute; reflexivity |].
    split; [| split].
    + vm_compute. intros [H | []]. float_differs H.
    + intros Hspec. specialize (Hspec _ eq_refl). vm_compute in Hspec.
      destruct Hspec as [H | []]. float_differs H.
    + intros np_exp np_sum. eexists. split; vm_compute; reflexivity.
  - repeat split; vm_compute; reflexivity.
Qed.

(** ** Choosing the answer in null-answer mode *)





(** ** The guard against an empty result *)

Lemma str_slice_0_0 (context : string) : str_slice context 0 0 = EmptyString.
Proof.
  unfold str_slice, clamp_index. simpl.
  rewrite Z.min_l by lia. simpl. now destruct context.
Qed.

Lemma slice_to_singleton (A : Type) (a : A) (n : Z) :
  slice_to [a] n = [a] \/ slice_to [a] n = [].
Proof.
  unfold slice_to. destruct (Z.to_nat _) as [| k]; simpl; [now right | left].
  now rewrite firstn_nil.
Qed.

(** With no span collected, null-answer mode keeps exactly the null
    prediction. *)
Lemma kept_predictions_null_only cfg m :
  version_2_with_negative cfg = true ->
  offsets m = (0, 0)%Z ->
  kept_predictions cfg (Some m) [] = [m].
Proof.
  intros Hv2 Hoff.
  unfold kept_predictions, null_added_back, best_predictions, with_null.
  rewrite Hv2. simpl.
  destruct (slice_to_singleton m (n_best_size cfg)) as [-> | ->]; simpl.
  - now rewrite Hoff.
  - reflexivity.
Qed.

Lemma kept_predictions_nothing cfg min_null :
  version_2_with_negative cfg = false ->
  kept_predictions cfg min_null [] = [].
Proof.
  intros Hv2.
  unfold kept_predictions, null_added_back, best_predictions, with_null, slice_to.
  rewrite Hv2. destruct min_null; simpl; now rewrite firstn_nil.
Qed.

(** C8, as stated, fails: null-answer mode, a feature without context token.
    No span is collected, yet the answer is the empty string, not "empty". *)
Lemma no_span_answer_is_not_placeholder :
  exists r st,
    process_example exp_approx sum_left null_config [no_context_feature]
      ["hello world"%string] [ [5]%float ] [ [5]%float ] None [0] hello_example
    = Ok r
    /\ features_loop null_config [no_context_feature]
         [ [5]%float ] [ [5]%float ] [0] (None, []) = Ok st
    /\ snd st = []
    /\ answer r <> "empty"%string.
Proof.
  eexists. eexists. split; [vm_compute; reflexivity |].
  split; [vm_compute; reflexivity |].
  split; [reflexivity |]. simpl. discriminate.
Qed.

(** C8 (amended): when the kept predictions, with their text, are none or a
    single one with empty text, the n-best list is that of the list with the
    placeholder (text "empty", score, start logit and end logit 0.0) put in
    front.  For an example without any collected span: when null-answer mode
    is off, the answer is "empty", and its n-best list is the placeholder
    alone, with probability 1.0 provided [np.exp(0.0)] is 1.0 and the sum of
    the one-element array [1.0] is 1.0; when null-answer mode is on and the
    example has a feature, the n-best list is the placeholder followed by the
    null prediction, and the answer is the empty string if the null score
    (minus 0.0 twice) exceeds the threshold and "empty" otherwise. *)
Theorem guard_inserts_placeholder :
  forall np_exp np_sum cfg features context_list all_start_logits all_end_logits
         ns fi ex r st context,
    process_example np_exp np_sum cfg features context_list
      all_start_logits all_end_logits ns fi ex = Ok r ->
    features_loop cfg features all_start_logits all_end_logits fi (None, []) = Ok st ->
    getitem context_list (relevant ex) = Ok context ->
    let kept := map (resolve_text context) (kept_predictions cfg (fst st) (snd st)) in
    (kept = [] \/ (exists p, kept = [p] /\ t_text p = EmptyString) ->
     nbest r = add_probabilities np_exp np_sum (placeholder :: kept)
     /\ exists prob rest,
          nbest r = {| text := "empty"%string; probability := prob;
                       nb_start_logit := 0; nb_end_logit := 0 |} :: rest)
    /\ (snd st = [] ->
        version_2_with_negative cfg = false ->
        answer r = "empty"%string
        /\ (np_exp 0%float = 1%float ->
            np_sum [1%float] = 1%float ->
            nbest r = [ {| text := "empty"%string; probability := 1;
                           nb_start_logit := 0; nb_end_logit := 0 |} ]))
    /\ (snd st = [] ->
        version_2_with_negative cfg = true ->
        forall m,
          fst st = Some m ->
          (exists prob0 prob1,
              nbest r = [ {| text := "empty"%string; probability := prob0;
                             nb_start_logit := 0; nb_end_logit := 0 |};
                          {| text := EmptyString; probability := prob1;
                             nb_start_logit := start_logit m;
                             nb_end_logit := end_logit m |} ])
          /\ answer r
             = if (null_score_diff_threshold cfg <? score m - 0 - 0)%float
               then EmptyString else "empty"%string).
Proof.
  intros np_exp np_sum cfg features context_list starts ends ns fi ex r st context
         Hr Hst Hctx.
  apply process_example_Ok in Hr.
  destruct Hr as (st' & context' & Hst' & Hctx' & Hnbest & Hns & Hpick).
  rewrite Hst in Hst'. inversion Hst'; subst st'. clear Hst'.
  rewrite Hctx in Hctx'. inversion Hctx'; subst context'. clear Hctx'.
  cbv zeta. split; [| split].
  - intros Hdeg.
    assert (Hguard : guard (map (resolve_text context)
                                (kept_predictions cfg (fst st) (snd st)))
                     = placeholder :: map (resolve_text context)
                                          (kept_predictions cfg (fst st) (snd st))).
    { destruct Hdeg as [-> | (p & -> & Hp)]; unfold guard; simpl;
        [reflexivity | now rewrite Hp]. }
    rewrite Hguard in Hnbest. split; [exact Hnbest |].
    destruct (add_probabilities_cons np_exp np_sum placeholder
                (map (resolve_text context) (kept_predictions cfg (fst st) (snd st))))
      as (prob & rest & Heq).
    exists prob, rest. now rewrite Hnbest, Heq.
  - intros Hnone Hv2.
    rewrite Hnone, (@kept_predictions_nothing cfg _ Hv2) in Hnbest. simpl in Hnbest.
    unfold pick_answer in Hpick. rewrite Hv2, Hnbest in Hpick. simpl in Hpick.
    split; [now inversion Hpick |].
    intros Hexp Hsum. rewrite Hnbest.
    unfold add_probabilities, softmax. simpl.
    change (0 - 0)%float with 0%float. rewrite Hexp, Hsum.
    reflexivity.
  - intros Hnone Hv2 m Hm.
    assert (Hoff : offsets m = (0, 0)%Z).
    { pose proof (@features_loop_invariant cfg features starts ends fi [] (None, []) st eq_refl Hst) as Hinv.
      unfold min_null_invariant in Hinv. rewrite Hm in Hinv.
      destruct Hinv as [(i & s0 & e0 & _ & _ & ->) _]. reflexivity. }
    rewrite Hnone, Hm, (@kept_predictions_null_only cfg m Hv2 Hoff) in Hnbest.
    simpl in Hnbest. unfold resolve_text in Hnbest.
    rewrite Hoff in Hnbest. simpl in Hnbest.
    rewrite str_slice_0_0 in Hnbest.
    unfold guard in Hnbest. simpl in Hnbest.
    unfold assign_null_score in Hns. rewrite Hm, Hv2 in Hns.
    unfold pick_answer in Hpick. rewrite Hv2, Hns, Hnbest in Hpick.
    unfold add_probabilities, softmax in Hpick, Hnbest. simpl in Hpick, Hnbest.
    split; [eauto | now inversion Hpick].
Qed.

Lemma guard_inserts_placeholder_witness :
  exists r,
    process_example exp_approx sum_left default_config [no_context_feature]
      ["hello world"%string] [ [5]%float ] [ [5]%float ] None [0] hello_example
    = Ok r
    /\ answer r = "empty"%string
    /\ nbest r = [ {| text := "empty"%string; probability := 1;
                      nb_start_logit := 0; nb_end_logit := 0 |} ].
Proof.
  eexists. split; [vm_compute; reflexivity |].
  edestruct (guard_inserts_placeholder exp_approx sum_left default_config
               [no_context_feature] ["hello world"%string]
               [ [5]%float ] [ [5]%float ] None [0] hello_example)
    as (_ & H & _); try (vm_compute; reflexivity).
  destruct (H eq_refl eq_refl) as [Hanswer Hnbest].
  split; [exact Hanswer |].
  apply Hnbest; vm_compute; reflexivity.
Defined.

(** ** Sorting and index shortlists *)

Lemma in_slice_to (A : Type) (l : list A) (n : Z) (x : A) :
  In x (slice_to l n) -> In x l.
Proof.
  unfold slice_to. intros Hin.
  rewrite <- (firstn_skipn (Z.to_nat (clamp_index (Z.of_nat (length l)) n)) l).
  apply in_or_app. now left.
Qed.

Lemma insert_index_perm v i sorted :
  Permutation (Np.insert_index v i sorted) (i :: sorted).
Proof.
  induction sorted as [| j rest IH]; simpl.
  - reflexivity.
  - destruct (Np.lt (Np.at_ v i) (Np.at_ v j)).
    + reflexivity.
    + rewrite IH. apply perm_swap.
Qed.

Lemma fold_insert_index_perm v l : forall acc,
  Permutation (fold_left (fun acc i => Np.insert_index v i acc) l acc) (l ++ acc).
Proof.
  induction l as [| i l IH]; simpl; intros acc.
  - reflexivity.
  - rewrite IH, insert_index_perm. symmetry. apply Permutation_middle.
Qed.

(** [np.argsort] returns each index of the array once. *)
Lemma argsort_perm v : Permutation (Np.argsort v) (seq 0 (length v)).
Proof.
  unfold Np.argsort. rewrite fold_insert_index_perm. now rewrite app_nil_r.
Qed.

(** The shortlisted indices are positions of the logits vector, so reading
    the logits at them never leaves the vector. *)
Lemma best_indexes_in_range cfg logits i :
  In i (best_indexes cfg logits) -> i < length logits.
Proof.
  unfold best_indexes. intros Hin.
  apply in_slice_to, in_rev in Hin.
  apply (Permutation_in _ (argsort_perm logits)) in Hin.
  apply in_seq in Hin. lia.
Qed.

Lemma insert_by_score_perm p sorted :
  Permutation (insert_by_score p sorted) (p :: sorted).
Proof.
  induction sorted as [| q rest IH]; simpl.
  - reflexivity.
  - destruct (score p <? score q)%float.
    + rewrite IH. apply perm_swap.
    + reflexivity.
Qed.

(** Ranking neither loses nor invents predictions. *)
Lemma sorted_by_score_perm l : Permutation (sorted_by_score l) l.
Proof.
  induction l as [| p l IH]; simpl.
  - reflexivity.
  - now rewrite insert_by_score_perm, IH.
Qed.

(** Every kept prediction was collected from a span or is the tracked null
    prediction. *)
Lemma kept_predictions_origin cfg min_null prelim p :
  In p (kept_predictions cfg min_null prelim) ->
  In p prelim \/ min_null = Some p.
Proof.
  assert (Hbest : In p (best_predictions cfg min_null prelim) ->
                  In p prelim \/ min_null = Some p).
  { unfold best_predictions. intros Hin. apply in_slice_to in Hin.
    apply (Permutation_in _ (sorted_by_score_perm _)) in Hin.
    unfold with_null in Hin. destruct min_null as [m |]; [| now left].
    destruct (version_2_with_negative cfg); [| now left].
    apply in_app_or in Hin. destruct Hin as [Hin | [-> | []]]; auto. }
  unfold kept_predictions. destruct min_null as [m |]; [| exact Hbest].
  destruct (null_added_back cfg (Some m) _); [| exact Hbest].
  intros Hin. apply in_app_or in Hin. destruct Hin as [Hin | [-> | []]]; auto.
Qed.

(** ** When the scan of lines 220-223 succeeds *)

Lemma first_non_empty_None l :
  first_non_empty l = None <-> Forall (fun p => text p = EmptyString) l.
Proof.
  induction l as [| p l IH]; simpl.
  - split; [constructor | reflexivity].
  - destruct (String.eqb (text p) EmptyString) eqn:E.
    + apply String.eqb_eq in E. rewrite IH. split.
      * now constructor.
      * intros H. now inversion H.
    + apply String.eqb_neq in E. split; [discriminate |].
      intros H. inversion H. contradiction.
Qed.

Lemma add_probabilities_texts np_exp np_sum l :
  map text (add_probabilities np_exp np_sum l) = map t_text l.
Proof.
  unfold add_probabilities.
  assert (Hlen : length (softmax np_exp np_sum (map t_score l)) = length l)
    by now rewrite softmax_length, length_map.
  revert Hlen. generalize (softmax np_exp np_sum (map t_score l)) as probs.
  induction l as [| p l IH]; intros [| prob probs] Hlen; simpl in *;
    try discriminate; [reflexivity |].
  f_equal. apply IH. now inversion Hlen.
Qed.

(** The scan runs past the end exactly when two or more predictions are kept
    and all of them have empty text: the case the guard of line 197 leaves
    out. *)
Lemma scan_fails_iff np_exp np_sum (kept : list text_prediction) :
  first_non_empty (add_probabilities np_exp np_sum (guard kept)) = None
  <-> 2 <= length kept /\ Forall (fun p => t_text p = EmptyString) kept.
Proof.
  rewrite first_non_empty_None.
  rewrite <- (Forall_map text (fun s => s = EmptyString)).
  rewrite add_probabilities_texts.
  rewrite (Forall_map t_text (fun s => s = EmptyString)).
  unfold guard. destruct kept as [| p [| q kept]]; simpl.
  - split.
    + intros H. inversion H. discriminate.
    + intros [H _]. lia.
  - destruct (String.eqb (t_text p) EmptyString) eqn:E; split.
    + intros H. inversion H. discriminate.
    + intros [H _]. lia.
    + intros H. inversion H. apply String.eqb_neq in E. contradiction.
    + intros [H _]. lia.
  - split.
    + intros H. split; [lia | exact H].
    + intros [_ H]. exact H.
Qed.

(** ** The count of end logits is not checked *)

(** Line 85 reads [len(predictions[0])] only: with as many start-logit
    vectors as features and no end-logit vector, the call gets past both
    checks and fails later, at line 116. *)
Lemma missing_end_logits_raise_index_error :
  forall np_exp np_sum,
    postprocess_qa_predictions np_exp np_sum [hello_example] [hello_feature]
      ["hello world"%string] [ [ [0; 5; 1; 0]%float ]; [] ] default_config
    = Raise IndexError.
Proof.
  intros np_exp np_sum. vm_compute. reflexivity.
Qed.

(** ** An example without features in null-answer mode *)

(** In null-answer mode an example that owns no feature is decided by the
    value [null_score] had on entry: unbound, the iteration raises
    [UnboundLocalError]; bound to [x] by an earlier example, the answer is the
    empty string when [x - 0.0 - 0.0] exceeds the threshold and "empty"
    otherwise. *)
Lemma process_bare_example_null_mode
    np_exp np_sum cfg features context_list all_start_logits all_end_logits
    ns ex context :
  version_2_with_negative cfg = true ->
  getitem context_list (relevant ex) = Ok context ->
  match ns with
  | None =>
      process_example np_exp np_sum cfg features context_list
        all_start_logits all_end_logits ns [] ex = Raise UnboundLocalError
  | Some x =>
      exists r,
        process_example np_exp np_sum cfg features context_list
          all_start_logits all_end_logits ns [] ex = Ok r
        /\ answer r = (if (null_score_diff_threshold cfg <? x - 0 - 0)%float
                       then EmptyString else "empty"%string)
        /\ score_diff r = Some (x - 0 - 0)%float
        /\ null_score_after r = Some x
  end.
Proof.
  intros Hv2 Hctx.
  assert (Hkept : kept_predictions cfg None [] = []).
  { unfold kept_predictions, best_predictions, with_null, slice_to.
    simpl. apply firstn_nil. }
  unfold process_example. cbn [features_loop bind fst snd].
  rewrite Hctx, Hkept. cbn [bind map guard degenerate assign_null_score].
  unfold pick_answer. rewrite Hv2. simpl.
  destruct ns as [x |]; simpl; [| reflexivity].
  eexists. split; [reflexivity |]. simpl. auto.
Qed.

(* ------------------------------------------------------------------ *)
(** * Further properties of the post-processing *)

(** ** Where span predictions come from *)

Lemma span_prediction_inv cfg feat sl el s e p :
  In p (span_prediction cfg feat sl el s e) ->
  out_of_scope (offset_mapping feat) s e = false
  /\ bad_length cfg s e = false
  /\ not_max_context (token_is_max_context feat) s = false
  /\ p = {| offsets := (offset_at (offset_mapping feat) s 0,
                        offset_at (offset_mapping feat) e 1);
            score := (Np.at_ sl s + Np.at_ el e)%float;
            start_logit := Np.at_ sl s;
            end_logit := Np.at_ el e |}.
Proof.
  unfold span_prediction.
  destruct (out_of_scope _ s e); [intros [] |].
  destruct (bad_length cfg s e); [intros [] |].
  destruct (not_max_context _ s); [intros [] |].
  intros [<- | []]. auto.
Qed.

(** X1: every span prediction collected for a feature joins a start token
    [s] and an end token [e] of the shortlists with [s <= e] and at most
    [max_answer_length] tokens, both inside [offset_mapping] with an entry that
    is not [None] and has two items at least; its offsets are the first item of
    the start entry and the second item of the end entry, its logits are the
    logits at [s] and [e], and its score is their sum. *)
Theorem span_predictions_from_context_tokens :
  forall cfg feat start_logits end_logits p,
    In p (feature_predictions cfg feat start_logits end_logits) ->
    exists s e os oe,
      In s (best_indexes cfg start_logits)
      /\ In e (best_indexes cfg end_logits)
      /\ s <= e
      /\ (Z.of_nat e - Z.of_nat s + 1 <= max_answer_length cfg)%Z
      /\ nth_error (offset_mapping feat) s = Some (Some os)
      /\ nth_error (offset_mapping feat) e = Some (Some oe)
      /\ 2 <= length os /\ 2 <= length oe
      /\ offsets p = (nth 0 os 0%Z, nth 1 oe 0%Z)
      /\ nth_error start_logits s = Some (start_logit p)
      /\ nth_error end_logits e = Some (end_logit p)
      /\ score p = (start_logit p + end_logit p)%float.
Proof.
  intros cfg feat sl el p Hin.
  unfold feature_predictions in Hin.
  apply in_flat_map in Hin. destruct Hin as (s & Hs & Hin).
  apply in_flat_map in Hin. destruct Hin as (e & He & Hin).
  apply span_prediction_inv in Hin.
  destruct Hin as (Hscope & Hlen & _ & ->).
  unfold out_of_scope in Hscope. unfold bad_length in Hlen.
  apply orb_false_iff in Hscope. destruct Hscope as [Hscope Hoe].
  apply orb_false_iff in Hscope. destruct Hscope as [_ Hos].
  apply orb_false_iff in Hlen. destruct Hlen as [Hse Hmax].
  unfold offset_at.
  destruct (nth_error (offset_mapping feat) s) as [[os |] |] eqn:Es;
    try discriminate Hos.
  destruct (nth_error (offset_mapping feat) e) as [[oe |] |] eqn:Ee;
    try discriminate Hoe.
  exists s, e, os, oe. simpl.
  apply Nat.ltb_ge in Hos, Hoe, Hse. apply Z.ltb_ge in Hmax.
  pose proof (best_indexes_in_range _ _ _ Hs) as Hs'.
  pose proof (best_indexes_in_range _ _ _ He) as He'.
  unfold Np.at_.
  repeat split; try assumption; try reflexivity; now apply nth_error_nth'.
Qed.

Lemma span_predictions_from_context_tokens_witness :
  exists s e os oe,
    In s (best_indexes one_token_config [0; 5; 1; 0]%float)
    /\ In e (best_indexes one_token_config [0; 1; 6; 0]%float)
    /\ s <= e
    /\ (Z.of_nat e - Z.of_nat s + 1 <= max_answer_length one_token_config)%Z
    /\ nth_error (offset_mapping hello_feature) s = Some (Some os)
    /\ nth_error (offset_mapping hello_feature) e = Some (Some oe)
    /\ 2 <= length os /\ 2 <= length oe
    /\ offsets {| offsets := (6, 11)%Z; score := 7; start_logit := 1; end_logit := 6 |}
       = (nth 0 os 0%Z, nth 1 oe 0%Z)
    /\ nth_error [0; 5; 1; 0]%float s = Some 1%float
    /\ nth_error [0; 1; 6; 0]%float e = Some 6%float
    /\ 7%float = (1 + 6)%float.
Proof.
  apply (span_predictions_from_context_tokens one_token_config hello_feature
           [0; 5; 1; 0]%float [0; 1; 6; 0]%float
           {| offsets := (6, 11)%Z; score := 7; start_logit := 1; end_logit := 6 |}).
  vm_compute. auto.
Defined.

(** ** numpy's order and the shortlists *)

Lemma SFltb_true_not_nan x y :
  SFltb x y = true -> SFeqb x x = true /\ SFeqb y y = true.
Proof.
  unfold SFltb, SFeqb, SFcompare.
  destruct x as [sx | sx | | sx mx ex], y as [sy | sy | | sy my ey];
    try discriminate; intros _;
    try destruct sx; try destruct sy;
    rewrite ?Z.compare_refl;
    repeat match goal with
           | |- context [Pos.compare_cont Eq ?m ?m] =>
               change (Pos.compare_cont Eq m m) with (Pos.compare m m);
               rewrite Pos.compare_refl
           end;
    split; reflexivity.
Qed.

Lemma float_ltb_not_nan (a b : float) :
  (a <? b)%float = true -> is_nan a = false /\ is_nan b = false.
Proof.
  rewrite ltb_spec. intros H. apply SFltb_true_not_nan in H.
  unfold is_nan. rewrite !eqb_spec. destruct H as [-> ->]. now split.
Qed.

Lemma np_lt_irrefl a : Np.lt a a = false.
Proof.
  unfold Np.lt. rewrite float_ltb_irrefl. now destruct (is_nan a).
Qed.

Lemma np_lt_trans a b c :
  Np.lt a b = true -> Np.lt b c = true -> Np.lt a c = true.
Proof.
  unfold Np.lt. intros Hab Hbc.
  apply orb_true_iff in Hab. apply orb_true_iff in Hbc.
  destruct Hab as [Hab | Hab], Hbc as [Hbc | Hbc].
  - now rewrite (float_ltb_trans Hab Hbc).
  - apply float_ltb_not_nan in Hab. destruct Hab as [Ha _].
    apply andb_true_iff in Hbc. destruct Hbc as [Hc _].
    rewrite Hc, Ha. apply orb_true_r.
  - apply float_ltb_not_nan in Hbc. destruct Hbc as [Hb _].
    rewrite Hb in Hab. discriminate Hab.
  - apply andb_true_iff in Hab. destruct Hab as [Hb _].
    rewrite Hb in Hbc. apply andb_true_iff in Hbc. destruct Hbc as [_ Hbc].
    discriminate Hbc.
Qed.

Lemma np_lt_asym a b : Np.lt a b = true -> Np.lt b a = false.
Proof.
  intros Hab. destruct (Np.lt b a) eqn:Hba; [| reflexivity].
  pose proof (np_lt_trans _ _ _ Hab Hba) as H.
  now rewrite np_lt_irrefl in H.
Qed.

Section ArgsortSorted.
Variable v : list float.

(** [i] may stand before [j] in ascending order: [v[j]] is not below [v[i]]. *)
Let ascending (i j : nat) : Prop := Np.lt (Np.at_ v j) (Np.at_ v i) = false.

Lemma insert_index_sorted i sorted :
  StronglySorted ascending sorted ->
  StronglySorted ascending (Np.insert_index v i sorted).
Proof.
  induction sorted as [| j rest IH]; simpl; intros Hs.
  - repeat constructor.
  - inversion Hs as [| ? ? Hrest Hj]; subst.
    destruct (Np.lt (Np.at_ v i) (Np.at_ v j)) eqn:E.
    + constructor; [exact Hs |]. constructor.
      * unfold ascending. now apply np_lt_asym.
      * rewrite Forall_forall in Hj |- *. intros x Hx. unfold ascending.
        destruct (Np.lt (Np.at_ v x) (Np.at_ v i)) eqn:Ex; [| reflexivity].
        pose proof (Hj x Hx) as Hjx. unfold ascending in Hjx.
        rewrite (np_lt_trans _ _ _ Ex E) in Hjx. discriminate Hjx.
    + constructor; [now apply IH |].
      rewrite Forall_forall in Hj |- *. intros x Hx.
      apply (Permutation_in _ (insert_index_perm v i rest)) in Hx.
      destruct Hx as [<- | Hx]; [exact E | now apply Hj].
Qed.

Lemma fold_insert_index_sorted l : forall acc,
  StronglySorted ascending acc ->
  StronglySorted ascending (fold_left (fun acc i => Np.insert_index v i acc) l acc).
Proof.
  induction l as [| i l IH]; simpl; intros acc Hacc; [exact Hacc |].
  apply IH. now apply insert_index_sorted.
Qed.

Lemma argsort_sorted : StronglySorted ascending (Np.argsort v).
Proof. apply fold_insert_index_sorted. constructor. Qed.

End ArgsortSorted.

Lemma StronglySorted_app_inv (A : Type) (R : A -> A -> Prop) (l1 l2 : list A) :
  StronglySorted R (l1 ++ l2) ->
  forall x y, In x l1 -> In y l2 -> R x y.
Proof.
  induction l1 as [| a l1 IH]; simpl; intros Hs x y Hx Hy; [contradiction |].
  inversion Hs as [| ? ? Hrest Ha]; subst.
  destruct Hx as [<- | Hx].
  - rewrite Forall_forall in Ha. apply Ha. apply in_or_app. now right.
  - now apply IH.
Qed.

Lemma NoDup_firstn (A : Type) (n : nat) (l : list A) : NoDup l -> NoDup (firstn n l).
Proof.
  intros H. rewrite <- (firstn_skipn n l) in H.
  now apply NoDup_app_remove_r in H.
Qed.

(** X2: the shortlist of a logits vector holds distinct positions of the
    vector, [min n_best_size len] of them when [n_best_size] is not negative,
    and no position left out has a logit that numpy's order ([nan] greatest)
    puts strictly above the logit of a shortlisted position. *)
Theorem shortlist_holds_greatest_logits :
  forall cfg logits,
    NoDup (best_indexes cfg logits)
    /\ (forall i, In i (best_indexes cfg logits) -> i < length logits)
    /\ ((0 <= n_best_size cfg)%Z ->
        length (best_indexes cfg logits)
        = Nat.min (Z.to_nat (n_best_size cfg)) (length logits))
    /\ (forall i j,
          In i (best_indexes cfg logits) ->
          j < length logits ->
          ~ In j (best_indexes cfg logits) ->
          Np.lt (Np.at_ logits i) (Np.at_ logits j) = false).
Proof.
  intros cfg logits.
  pose proof (argsort_perm logits) as Hperm.
  assert (Hlen : length (rev (Np.argsort logits)) = length logits).
  { rewrite length_rev, (Permutation_length Hperm). apply length_seq. }
  split; [| split; [| split]].
  - apply NoDup_firstn, NoDup_rev.
    apply (Permutation_NoDup (Permutation_sym Hperm)), seq_NoDup.
  - intros i. apply best_indexes_in_range.
  - intros Hn. unfold best_indexes, slice_to, clamp_index.
    rewrite length_firstn, Hlen.
    destruct (n_best_size cfg <? 0)%Z eqn:E; [apply Z.ltb_lt in E; lia |]. lia.
  - intros i j Hi Hj Hnot. unfold best_indexes, slice_to in Hi, Hnot.
    set (k := Z.to_nat (clamp_index (Z.of_nat (length (rev (Np.argsort logits))))
                          (n_best_size cfg))) in *.
    assert (Hj' : In j (skipn k (rev (Np.argsort logits)))).
    { assert (Hin : In j (rev (Np.argsort logits))).
      { apply in_rev. rewrite rev_involutive.
        apply (Permutation_in _ (Permutation_sym Hperm)), in_seq. lia. }
      rewrite <- (firstn_skipn k) in Hin. apply in_app_or in Hin. tauto. }
    pose proof (argsort_sorted logits) as Hsorted.
    rewrite <- (rev_involutive (Np.argsort logits)) in Hsorted.
    rewrite <- (firstn_skipn k (rev (Np.argsort logits))), rev_app_distr in Hsorted.
    apply (@StronglySorted_app_inv _ _ _ _ Hsorted j i); rewrite <- in_rev; assumption.
Qed.

Lemma shortlist_holds_greatest_logits_witness :
  Np.lt (Np.at_ [0; 5; 1; 0]%float 1) (Np.at_ [0; 5; 1; 0]%float 3) = false.
Proof.
  apply (proj2 (proj2 (proj2 (shortlist_holds_greatest_logits
                                null_config_one_best [0; 5; 1; 0]%float)))).
  - vm_compute. auto.
  - vm_compute. lia.
  - vm_compute. intros [H | []]. discriminate H.
Defined.

(** ** The ranking *)

Lemma SFltb_negative_trans x y z :
  SFeqb y y = true ->
  SFltb x y = false -> SFltb y z = false -> SFltb x z = false.
Proof.
  unfold SFltb, SFeqb, SFcompare.
  destruct x as [sx | sx | | sx mx ex], y as [sy | sy | | sy my ey],
           z as [sz | sz | | sz mz ez];
    try destruct sx; try destruct sy; try destruct sz;
    try reflexivity; try discriminate; intros _ H1 H2;
    compare_cases; simpl in *; try reflexivity; try discriminate; try lia.
Qed.

Lemma float_ltb_negative_trans (a b c : float) :
  is_nan b = false ->
  (a <? b)%float = false -> (b <? c)%float = false -> (a <? c)%float = false.
Proof.
  unfold is_nan. rewrite eqb_spec, !ltb_spec. intros Hb.
  apply negb_false_iff in Hb. now apply SFltb_negative_trans.
Qed.

Lemma float_ltb_asym (a b : float) :
  (a <? b)%float = true -> (b <? a)%float = false.
Proof.
  intros Hab. destruct (b <? a)%float eqn:Hba; [| reflexivity].
  pose proof (float_ltb_trans Hab Hba) as H.
  now rewrite float_ltb_irrefl in H.
Qed.

Lemma insert_by_score_sorted p sorted :
  no_nan_scores sorted ->
  StronglySorted descending sorted ->
  StronglySorted descending (insert_by_score p sorted).
Proof.
  induction sorted as [| q rest IH]; simpl; intros Hnan Hs.
  - repeat constructor.
  - inversion Hs as [| ? ? Hrest Hq]; subst.
    inversion Hnan as [| ? ? Hqnan Hrestnan]; subst.
    destruct (score p <? score q)%float eqn:E.
    + constructor; [now apply IH |].
      rewrite Forall_forall in Hq |- *. intros x Hx.
      apply (Permutation_in _ (insert_by_score_perm p rest)) in Hx.
      destruct Hx as [<- | Hx]; [now apply float_ltb_asym | now apply Hq].
    + constructor; [exact Hs |]. constructor; [exact E |].
      rewrite Forall_forall in Hq |- *. intros x Hx.
      exact (float_ltb_negative_trans Hqnan E (Hq x Hx)).
Qed.

Lemma sorted_by_score_sorted l :
  no_nan_scores l -> StronglySorted descending (sorted_by_score l).
Proof.
  induction l as [| p l IH]; simpl; intros Hnan.
  - constructor.
  - inversion Hnan; subst. apply insert_by_score_sorted; [| now apply IH].
    unfold no_nan_scores in *. rewrite Forall_forall in *.
    intros x Hx. apply (Permutation_in _ (sorted_by_score_perm l)) in Hx. auto.
Qed.

(** X3: when no score of the pool is [nan], line 172 splits the pool into the
    kept predictions followed by the dropped ones so that, read in this
    order, no prediction has a score below that of a later one: the kept
    predictions are ranked by non-increasing score and no dropped prediction
    outscores a kept one.  With [n_best_size >= 0], [min n_best_size len] of
    them are kept. *)
Theorem ranking_keeps_the_best :
  forall cfg min_null prelim,
    no_nan_scores (with_null cfg min_null prelim) ->
    exists dropped,
      Permutation (best_predictions cfg min_null prelim ++ dropped)
                  (with_null cfg min_null prelim)
      /\ StronglySorted descending (best_predictions cfg min_null prelim ++ dropped)
      /\ ((0 <= n_best_size cfg)%Z ->
          length (best_predictions cfg min_null prelim)
          = Nat.min (Z.to_nat (n_best_size cfg))
                    (length (with_null cfg min_null prelim))).
Proof.
  intros cfg min_null prelim Hnan.
  unfold best_predictions, slice_to.
  set (pool := with_null cfg min_null prelim) in *.
  set (k := Z.to_nat (clamp_index (Z.of_nat (length (sorted_by_score pool)))
                        (n_best_size cfg))).
  exists (skipn k (sorted_by_score pool)).
  rewrite firstn_skipn. split; [apply sorted_by_score_perm |].
  split; [now apply sorted_by_score_sorted |].
  intros Hn. rewrite length_firstn. unfold k, clamp_index.
  rewrite (Permutation_length (sorted_by_score_perm pool)).
  destruct (n_best_size cfg <? 0)%Z eqn:E; [apply Z.ltb_lt in E; lia |]. lia.
Qed.

Lemma ranking_keeps_the_best_witness :
  exists dropped,
    Permutation
      (best_predictions null_config_one_best (Some (null_prediction 0 0))
         [ {| offsets := (0, 0)%Z; score := 10; start_logit := 5; end_logit := 5 |} ]
       ++ dropped)
      (with_null null_config_one_best (Some (null_prediction 0 0))
         [ {| offsets := (0, 0)%Z; score := 10; start_logit := 5; end_logit := 5 |} ])
    /\ StronglySorted descending
         (best_predictions null_config_one_best (Some (null_prediction 0 0))
            [ {| offsets := (0, 0)%Z; score := 10; start_logit := 5; end_logit := 5 |} ]
          ++ dropped)
    /\ ((0 <= n_best_size null_config_one_best)%Z ->
        length
          (best_predictions null_config_one_best (Some (null_prediction 0 0))
             [ {| offsets := (0, 0)%Z; score := 10; start_logit := 5; end_logit := 5 |} ])
        = Nat.min (Z.to_nat (n_best_size null_config_one_best))
            (length
               (with_null null_config_one_best (Some (null_prediction 0 0))
                  [ {| offsets := (0, 0)%Z; score := 10;
                       start_logit := 5; end_logit := 5 |} ]))).
Proof.
  apply ranking_keeps_the_best.
  repeat constructor.
Defined.

(** ** The answer without null-answer mode *)

Lemma firstn_cons_head (A : Type) (k : nat) (a : A) (l : list A) :
  1 <= k -> exists tl, firstn k (a :: l) = a :: tl /\ (tl = [] <-> k = 1 \/ l = []).
Proof.
  destruct k as [| k]; [lia |]. intros _. simpl.
  exists (firstn k l). split; [reflexivity |].
  destruct k as [| k], l as [| b l]; simpl; split; intros H;
    try reflexivity; try discriminate; auto.
  destruct H as [H | H]; discriminate H.
Qed.

(** X4: without null-answer mode, with [n_best_size >= 1], at least one span
    collected and no [nan] among the scores, the first prediction kept is a
    collected span whose score no other collected span exceeds, and the answer
    of the example is its text; the answer is "empty" instead exactly when
    that text is empty and it is the single prediction kept. *)
Theorem answer_is_a_best_span :
  forall np_exp np_sum cfg features context_list all_start_logits all_end_logits
         ns fi ex r st context,
    version_2_with_negative cfg = false ->
    (1 <= n_best_size cfg)%Z ->
    process_example np_exp np_sum cfg features context_list
      all_start_logits all_end_logits ns fi ex = Ok r ->
    features_loop cfg features all_start_logits all_end_logits fi (None, []) = Ok st ->
    getitem context_list (relevant ex) = Ok context ->
    snd st <> [] ->
    no_nan_scores (snd st) ->
    exists best rest_kept,
      kept_predictions cfg (fst st) (snd st) = best :: rest_kept
      /\ In best (snd st)
      /\ (forall q, In q (snd st) -> (score best <? score q)%float = false)
      /\ (((rest_kept = []
            /\ str_slice context (fst (offsets best)) (snd (offsets best))
               = EmptyString)
           /\ answer r = "empty"%string)
          \/ (~ (rest_kept = []
                 /\ str_slice context (fst (offsets best)) (snd (offsets best))
                    = EmptyString)
              /\ answer r
                 = str_slice context (fst (offsets best)) (snd (offsets best)))).
Proof.
  intros np_exp np_sum cfg features context_list starts ends ns fi ex r st context
         Hv2 Hn Hr Hst Hctx Hne Hnan.
  apply process_example_Ok in Hr.
  destruct Hr as (st' & context' & Hst' & Hctx' & Hnbest & _ & Hpick).
  rewrite Hst in Hst'. inversion Hst'; subst st'. clear Hst'.
  rewrite Hctx in Hctx'. inversion Hctx'; subst context'. clear Hctx'.
  assert (Hpool : with_null cfg (fst st) (snd st) = snd st).
  { unfold with_null. rewrite Hv2. now destruct (fst st). }
  assert (Hkept : kept_predictions cfg (fst st) (snd st)
                  = best_predictions cfg (fst st) (snd st)).
  { unfold kept_predictions, null_added_back. rewrite Hv2. now destruct (fst st). }
  rewrite Hkept in Hnbest |- *. unfold best_predictions, slice_to in Hnbest |- *.
  rewrite Hpool in Hnbest |- *.
  pose proof (sorted_by_score_perm (snd st)) as Hperm.
  pose proof (sorted_by_score_sorted Hnan) as Hsorted.
  destruct (sorted_by_score (snd st)) as [| best rest] eqn:Esorted.
  { apply Permutation_nil in Hperm. contradiction. }
  destruct (@firstn_cons_head _
              (Z.to_nat (clamp_index (Z.of_nat (length (best :: rest))) (n_best_size cfg)))
              best rest) as (tl & Hfirst & _).
  { unfold clamp_index. simpl length.
    destruct (n_best_size cfg <? 0)%Z eqn:E; [apply Z.ltb_lt in E; lia |]. lia. }
  rewrite Hfirst in Hnbest |- *. simpl map in Hnbest.
  exists best, tl. split; [reflexivity |].
  split; [apply (Permutation_in _ Hperm); now left |]. split.
  - intros q Hq. apply (Permutation_in _ (Permutation_sym Hperm)) in Hq.
    destruct Hq as [<- | Hq]; [apply float_ltb_irrefl |].
    inversion Hsorted as [| ? ? _ Hall]; subst.
    rewrite Forall_forall in Hall. now apply Hall.
  - unfold pick_answer in Hpick. rewrite Hv2 in Hpick. simpl in Hpick.
    unfold guard in Hnbest.
    destruct (degenerate (resolve_text context best :: map (resolve_text context) tl))
      eqn:Edeg.
    + left. simpl in Edeg. destruct tl as [| t tl]; [| discriminate Edeg].
      apply String.eqb_eq in Edeg. simpl in Edeg.
      split; [split; [reflexivity | exact Edeg] |].
      rewrite Hnbest in Hpick.
      unfold add_probabilities, softmax in Hpick. simpl in Hpick.
      inversion Hpick. reflexivity.
    + right. split.
      * intros [-> Hempty]. simpl in Edeg. rewrite Hempty in Edeg. discriminate Edeg.
      * rewrite Hnbest in Hpick.
        unfold add_probabilities, softmax in Hpick. simpl in Hpick.
        inversion Hpick. reflexivity.
Qed.

Lemma answer_is_a_best_span_witness :
  exists best rest_kept,
    kept_predictions one_token_config (Some (null_prediction 0 0))
      [ {| offsets := (0, 5)%Z; score := 6; start_logit := 5; end_logit := 1 |};
        {| offsets := (6, 11)%Z; score := 7; start_logit := 1; end_logit := 6 |} ]
    = best :: rest_kept
    /\ In best
         [ {| offsets := (0, 5)%Z; score := 6; start_logit := 5; end_logit := 1 |};
           {| offsets := (6, 11)%Z; score := 7; start_logit := 1; end_logit := 6 |} ]
    /\ (forall q,
          In q [ {| offsets := (0, 5)%Z; score := 6; start_logit := 5; end_logit := 1 |};
                 {| offsets := (6, 11)%Z; score := 7; start_logit := 1; end_logit := 6 |} ] ->
          (score best <? score q)%float = false)
    /\ (((rest_kept = []
          /\ str_slice "hello world" (fst (offsets best)) (snd (offsets best))
             = EmptyString)
         /\ "world"%string = "empty"%string)
        \/ (~ (rest_kept = []
               /\ str_slice "hello world" (fst (offsets best)) (snd (offsets best))
                  = EmptyString)
            /\ "world"%string
               = str_slice "hello world" (fst (offsets best)) (snd (offsets best)))).
Proof.
  eapply (answer_is_a_best_span exp_approx sum_left one_token_config
            [hello_feature] ["hello world"%string]
            [ [0; 5; 1; 0]%float ] [ [0; 1; 6; 0]%float ] None [0] hello_example
            (st := (Some (null_prediction 0 0),
                    [ {| offsets := (0, 5)%Z; score := 6;
                         start_logit := 5; end_logit := 1 |};
                      {| offsets := (6, 11)%Z; score := 7;
                         start_logit := 1; end_logit := 6 |} ]))
            (r := {| answer := "world"%string;
                     nbest := _; score_diff := None; null_score_after := None |})).
  - reflexivity.
  - simpl. lia.
  - vm_compute. reflexivity.
  - vm_compute. reflexivity.
  - vm_compute. reflexivity.
  - discriminate.
  - repeat constructor.
Defined.

(** ** Answers are pieces of the context *)

Lemma substring_is_substring (s : string) : forall n m,
  is_substring (substring n m s) s.
Proof.
  induction s as [| c s IH]; intros n m.
  - exists EmptyString, EmptyString. destruct n, m; reflexivity.
  - destruct n as [| n].
    + destruct m as [| m]; simpl.
      * exists EmptyString, (String c s). reflexivity.
      * destruct (IH 0 m) as (pre & post & Heq).
        destruct pre as [| c' pre].
        -- exists EmptyString, post. simpl in *. now rewrite <- Heq.
        -- (* the piece starts at 0, so it is a prefix *)
           exists EmptyString.
           assert (Hprefix : forall t k, exists post', t = (substring 0 k t ++ post')%string).
           { clear. induction t as [| a t IHt]; intros k.
             - exists EmptyString. now destruct k.
             - destruct k as [| k]; simpl.
               + now exists (String a t).
               + destruct (IHt k) as (post' & Hp). exists post'. now rewrite <- Hp. }
           destruct (Hprefix s m) as (post' & Hp). exists post'. simpl. now rewrite <- Hp.
    + simpl. destruct (IH n m) as (pre & post & Heq).
      exists (String c pre), post. simpl. now rewrite <- Heq.
Qed.

Lemma str_slice_is_substring context lo hi :
  is_substring (str_slice context lo hi) context.
Proof. unfold str_slice. apply substring_is_substring. Qed.

Lemma first_non_empty_In l p : first_non_empty l = Some p -> In p l.
Proof.
  induction l as [| q l IH]; simpl; [discriminate |].
  destruct (String.eqb (text q) EmptyString).
  - intros H. right. now apply IH.
  - intros H. inversion H. now left.
Qed.

(** X5: every text of the n-best list of an example, and the answer chosen for
    it, is the literal "empty" or a contiguous piece of the example's context,
    whatever the offsets are. *)
Theorem answers_are_pieces_of_the_context :
  forall np_exp np_sum cfg features context_list all_start_logits all_end_logits
         ns fi ex r context,
    process_example np_exp np_sum cfg features context_list
      all_start_logits all_end_logits ns fi ex = Ok r ->
    getitem context_list (relevant ex) = Ok context ->
    (answer r = "empty"%string \/ is_substring (answer r) context)
    /\ Forall (fun p => text p = "empty"%string \/ is_substring (text p) context)
              (nbest r).
Proof.
  intros np_exp np_sum cfg features context_list starts ends ns fi ex r context Hr Hctx.
  apply process_example_Ok in Hr.
  destruct Hr as (st & context' & _ & Hctx' & Hnbest & _ & Hpick).
  rewrite Hctx in Hctx'. inversion Hctx'; subst context'. clear Hctx'.
  assert (Hall : Forall (fun p => text p = "empty"%string \/ is_substring (text p) context)
                        (nbest r)).
  { rewrite <- (Forall_map text
                  (fun t => t = "empty"%string \/ is_substring t context)).
    rewrite Hnbest, add_probabilities_texts.
    rewrite (Forall_map t_text
               (fun t => t = "empty"%string \/ is_substring t context)).
    assert (Hkept : Forall (fun p => t_text p = "empty"%string
                                     \/ is_substring (t_text p) context)
                      (map (resolve_text context)
                           (kept_predictions cfg (fst st) (snd st)))).
    { rewrite Forall_map. apply Forall_forall. intros p _. right.
      apply str_slice_is_substring. }
    unfold guard. destruct (degenerate _); [constructor; [now left | exact Hkept] |].
    exact Hkept. }
  split; [| exact Hall].
  rewrite Forall_forall in Hall.
  unfold pick_answer in Hpick.
  destruct (version_2_with_negative cfg); simpl in Hpick.
  - destruct (first_non_empty (nbest r)) as [best |] eqn:Ebest; [| discriminate Hpick].
    destruct (null_score_after r); [| discriminate Hpick].
    inversion Hpick as [[Hanswer Hdiff]].
    destruct (_ <? _)%float.
    + right. exists EmptyString, context. reflexivity.
    + apply Hall. now apply first_non_empty_In.
  - unfold getitem_nat in Hpick.
    destruct (nbest r) as [| p rest]; simpl in Hpick; [discriminate Hpick |].
    inversion Hpick. apply Hall. now left.
Qed.

Lemma answers_are_pieces_of_the_context_witness :
  exists r,
    process_example exp_approx sum_left one_token_config [hello_feature]
      ["hello world"%string] [ [0; 5; 1; 0]%float ] [ [0; 1; 6; 0]%float ]
      None [0] hello_example = Ok r
    /\ (answer r = "empty"%string \/ is_substring (answer r) "hello world")
    /\ Forall (fun p => text p = "empty"%string \/ is_substring (text p) "hello world")
              (nbest r).
Proof.
  eexists. split; [vm_compute; reflexivity |].
  apply (answers_are_pieces_of_the_context exp_approx sum_left one_token_config
           [hello_feature] ["hello world"%string]
           [ [0; 5; 1; 0]%float ] [ [0; 1; 6; 0]%float ] None [0] hello_example);
    vm_compute; reflexivity.
Defined.

(** ** Features that name an unknown example *)

Lemma get_in_keys (K V : Type) (eqb : K -> K -> bool)
    (eqb_eq : forall x y, eqb x y = true <-> x = y) (d : dict K V) k v :
  get eqb d k = Some v -> In k (keys d).
Proof.
  induction d as [| [k' v'] d IH]; simpl; [discriminate |].
  destruct (eqb k k') eqn:E.
  - apply eqb_eq in E. now left.
  - intros H. right. now apply IH.
Qed.

Lemma get_None_iff (K V : Type) (eqb : K -> K -> bool)
    (eqb_eq : forall x y, eqb x y = true <-> x = y) (d : dict K V) k :
  get eqb d k = None <-> ~ In k (keys d).
Proof.
  split.
  - intros Hnone Hin. apply (in_keys_get eqb eqb_eq) in Hin.
    destruct Hin as (v & Hv). congruence.
  - intros Hnot. destruct (get eqb d k) as [v |] eqn:E; [| reflexivity].
    apply (get_in_keys eqb eqb_eq) in E. contradiction.
Qed.

Lemma fold_set_keys rows : forall (d : dict string nat) k,
  In k (keys (fold_left (fun d (ik : nat * string) => set String.eqb d (snd ik) (fst ik))
                        rows d))
  <-> In k (keys d) \/ In k (map snd rows).
Proof.
  induction rows as [| [i k0] rows IH]; simpl; intros d k.
  - tauto.
  - rewrite IH, (in_keys_set String.eqb String.eqb_eq). intuition congruence.
Qed.

(** The dictionary of line 89 knows exactly the ids of the examples. *)
Lemma example_id_to_index_None examples k :
  get String.eqb (example_id_to_index examples) k = None
  <-> ~ In k (map ex_id examples).
Proof.
  rewrite (get_None_iff String.eqb String.eqb_eq).
  unfold example_id_to_index. rewrite fold_set_keys, map_snd_enumerate.
  simpl. tauto.
Qed.

Lemma group_features_Ok_iff e2i rows : forall fpe,
  (exists fpe', group_features e2i rows fpe = Ok fpe')
  <-> (forall f, In f (map snd rows) -> get String.eqb e2i (example_id f) <> None).
Proof.
  induction rows as [| [i feat] rows IH]; simpl; intros fpe.
  - split; [intros _ f [] | eauto].
  - destruct (get String.eqb e2i (example_id feat)) as [idx |] eqn:E.
    + rewrite IH. split.
      * intros H f [<- | Hf]; [congruence | now apply H].
      * intros H f Hf. apply H. now right.
    + split.
      * intros (fpe' & H). discriminate H.
      * intros H. exfalso. apply (H feat); [now left | exact E].
Qed.

Lemma unknown_example_id_dec (features : list feature) (ids : list string) :
  (exists f, In f features /\ ~ In (example_id f) ids)
  \/ (forall f, In f features -> In (example_id f) ids).
Proof.
  induction features as [| feat features IH].
  - right. intros f [].
  - destruct (in_dec string_dec (example_id feat) ids) as [Hin | Hnot].
    + destruct IH as [(f & Hf & Hunknown) | Hall].
      * left. exists f. split; [now right | exact Hunknown].
      * right. intros f [<- | Hf]; auto.
    + left. exists feat. split; [now left | exact Hnot].
Qed.

(** X6: for a call that passes the two checks on its arguments, [KeyError] is
    raised exactly when some feature's [example_id] is not the id of any
    example. *)
Theorem key_error_iff_unknown_example_id :
  forall np_exp np_sum examples features context_list predictions cfg,
    length predictions = 2 ->
    length (nth 0 predictions []) = length features ->
    (postprocess_qa_predictions np_exp np_sum examples features context_list
       predictions cfg = Raise KeyError
     <-> exists f, In f features /\ ~ In (example_id f) (map ex_id examples)).
Proof.
  intros np_exp np_sum examples features context_list predictions cfg H2 Hn.
  unfold postprocess_qa_predictions, run.
  rewrite H2, Hn, !Nat.eqb_refl. simpl negb. cbv iota.
  destruct (group_features (example_id_to_index examples) (enumerate features) [])
    as [fpe | e] eqn:Egroup; simpl.
  - split.
    + intros H. split_bind H; [| discriminate H].
      apply examples_loop_Raise in H. destruct H as [H | H]; discriminate H.
    + intros (f & Hf & Hunknown). exfalso.
      assert (Hok : exists fpe', group_features (example_id_to_index examples)
                                   (enumerate features) [] = Ok fpe') by eauto.
      rewrite group_features_Ok_iff, map_snd_enumerate in Hok.
      apply (Hok f Hf). now apply example_id_to_index_None.
  - pose proof (group_features_Raise _ _ _ Egroup) as ->.
    split; [intros _ | reflexivity].
    destruct (unknown_example_id_dec features (map ex_id examples))
      as [Hex | Hall]; [exact Hex |].
    exfalso.
    assert (Hok : exists fpe', group_features (example_id_to_index examples)
                                 (enumerate features) [] = Ok fpe').
    { rewrite group_features_Ok_iff, map_snd_enumerate. intros f Hf.
      rewrite example_id_to_index_None. intros Hnot. apply Hnot. now apply Hall. }
    destruct Hok as (fpe' & Hok). congruence.
Qed.

Lemma key_error_iff_unknown_example_id_witness :
  postprocess_qa_predictions exp_approx sum_left [bare_example] [hello_feature]
    ["hello world"%string] hello_predictions default_config = Raise KeyError
  <-> exists f, In f [hello_feature]
                /\ ~ In (example_id f) (map ex_id [bare_example]).
Proof.
  apply (key_error_iff_unknown_example_id exp_approx sum_left [bare_example]
           [hello_feature] ["hello world"%string] hello_predictions default_config);
    reflexivity.
Defined.

(** ** Calls that cannot fail *)

Lemma in_enumerate (A : Type) (l : list A) i a :
  In (i, a) (enumerate l) -> i < length l.
Proof.
  unfold enumerate. intros H. apply in_combine_l, in_seq in H. lia.
Qed.

(** The feature indices grouped at lines 90-92 are positions of [features]. *)
Lemma group_features_bound e2i (N : nat) rows : forall fpe fpe',
  (forall i f, In (i, f) rows -> i < N) ->
  (forall k l, get Nat.eqb fpe k = Some l -> Forall (fun i => i < N) l) ->
  group_features e2i rows fpe = Ok fpe' ->
  forall k l, get Nat.eqb fpe' k = Some l -> Forall (fun i => i < N) l.
Proof.
  induction rows as [| [i feat] rows IH]; simpl; intros fpe fpe' Hrows Hfpe Hgroup.
  - inversion Hgroup; subst. exact Hfpe.
  - destruct (get String.eqb e2i (example_id feat)) as [idx |]; [| discriminate Hgroup].
    refine (IH _ _ (fun i0 f0 Hin => Hrows i0 f0 (or_intror Hin)) _ Hgroup).
    intros k l Hk.
    destruct (Nat.eq_dec k idx) as [-> | Hne].
    + rewrite (get_set_same Nat.eqb Nat.eqb_eq) in Hk. inversion Hk; subst l.
      apply Forall_app. split.
      * destruct (get Nat.eqb fpe idx) as [old |] eqn:E; [now apply (Hfpe idx) | constructor].
      * constructor; [| constructor]. apply (Hrows i feat). now left.
    + rewrite (get_set_other Nat.eqb Nat.eqb_eq) in Hk by exact Hne.
      now apply (Hfpe k).
Qed.

Lemma getitem_in_range (A : Type) (l : list A) (i : Z) :
  index_in_range (length l) i -> exists a, getitem l i = Ok a.
Proof.
  unfold index_in_range, getitem, getitem_nat. intros [Hlo Hhi].
  destruct (0 <=? i)%Z eqn:E0.
  - apply Z.leb_le in E0.
    destruct (nth_error l (Z.to_nat i)) as [a |] eqn:E; [eauto |].
    apply nth_error_None in E. lia.
  - apply Z.leb_gt in E0.
    assert (Hle : (- Z.of_nat (length l) <=? i)%Z = true) by now apply Z.leb_le.
    rewrite Hle.
    destruct (nth_error l (Z.to_nat (Z.of_nat (length l) + i))) as [a |] eqn:E; [eauto |].
    apply nth_error_None in E. lia.
Qed.

Section NoFailure.
Variable np_exp : float -> float.
Variable np_sum : list float -> float.
Variable cfg : config.
Variable features : list feature.
Variable context_list : list string.
Variables all_start_logits all_end_logits : list (list float).

Hypothesis Hoff : version_2_with_negative cfg = false.
Hypothesis Hstarts : length all_start_logits = length features.
Hypothesis Hends : length all_end_logits = length features.
Hypothesis Hstart_rows : Forall (fun row => row <> []) all_start_logits.
Hypothesis Hend_rows : Forall (fun row => row <> []) all_end_logits.

Lemma feature_step_total st i :
  i < length features ->
  exists st', feature_step cfg features all_start_logits all_end_logits st i = Ok st'.
Proof.
  intros Hi. unfold feature_step, getitem_nat.
  destruct (nth_error all_start_logits i) as [sl |] eqn:Es;
    [| apply nth_error_None in Es; lia].
  destruct (nth_error all_end_logits i) as [el |] eqn:Ee;
    [| apply nth_error_None in Ee; lia].
  destruct (nth_error features i) as [feat |] eqn:Ef;
    [| apply nth_error_None in Ef; lia].
  apply nth_error_In in Es, Ee.
  rewrite Forall_forall in Hstart_rows, Hend_rows.
  specialize (Hstart_rows _ Es). specialize (Hend_rows _ Ee).
  destruct sl as [| s0 sl]; [contradiction |].
  destruct el as [| e0 el]; [contradiction |].
  simpl. eauto.
Qed.

Lemma features_loop_total fi : forall st,
  Forall (fun i => i < length features) fi ->
  exists st', features_loop cfg features all_start_logits all_end_logits fi st = Ok st'.
Proof.
  induction fi as [| i fi IH]; simpl; intros st Hfi; [eauto |].
  inversion Hfi; subst.
  destruct (feature_step_total st H1) as (st1 & ->). simpl. now apply IH.
Qed.

Lemma process_example_total ns fi ex :
  Forall (fun i => i < length features) fi ->
  index_in_range (length context_list) (relevant ex) ->
  exists r, process_example np_exp np_sum cfg features context_list
              all_start_logits all_end_logits ns fi ex = Ok r.
Proof.
  intros Hfi Hrel. unfold process_example.
  destruct (features_loop_total (None, []) Hfi) as (st & ->). simpl.
  destruct (getitem_in_range _ Hrel) as (context & ->). simpl.
  unfold pick_answer. rewrite Hoff. simpl.
  set (kept := guard (map (resolve_text context)
                          (kept_predictions cfg (fst st) (snd st)))).
  pose proof (add_probabilities_length np_exp np_sum kept) as Hlen.
  destruct (guard_length (map (resolve_text context)
                              (kept_predictions cfg (fst st) (snd st)))) as [Hone _].
  fold kept in Hone.
  destruct (add_probabilities np_exp np_sum kept) as [| p rest]; simpl in *; [lia |].
  eauto.
Qed.

Lemma examples_loop_total fpe rows : forall l,
  (forall k fi, get Nat.eqb fpe k = Some fi -> Forall (fun i => i < length features) fi) ->
  (forall i ex, In (i, ex) rows -> index_in_range (length context_list) (relevant ex)) ->
  exists l', examples_loop np_exp np_sum cfg features context_list
               all_start_logits all_end_logits fpe rows l = Ok l'.
Proof.
  induction rows as [| [idx ex] rows IH]; simpl; intros l Hfpe Hrel; [eauto |].
  destruct (process_example_total (null_score l) (fi := feature_indices_of fpe idx) ex)
    as (r & ->).
  - unfold feature_indices_of.
    destruct (get Nat.eqb fpe idx) as [fi |] eqn:E; [now apply (Hfpe idx) | constructor].
  - apply (Hrel idx). now left.
  - simpl. apply IH; [exact Hfpe |]. intros i ex' Hin. apply (Hrel i). now right.
Qed.

End NoFailure.

(** X7: without null-answer mode a call returns its dictionary of answers
    whenever [predictions] holds as many non-empty start-logit rows and
    non-empty end-logit rows as there are features, every feature's
    [example_id] is the id of an example, and every example's [relevant] is a
    valid index into [context_list]. *)
Theorem call_returns_without_null_mode :
  forall np_exp np_sum examples features context_list all_start_logits all_end_logits cfg,
    version_2_with_negative cfg = false ->
    length all_start_logits = length features ->
    length all_end_logits = length features ->
    Forall (fun row => row <> []) all_start_logits ->
    Forall (fun row => row <> []) all_end_logits ->
    (forall f, In f features -> In (example_id f) (map ex_id examples)) ->
    (forall ex, In ex examples -> index_in_range (length context_list) (relevant ex)) ->
    exists answers,
      postprocess_qa_predictions np_exp np_sum examples features context_list
        [all_start_logits; all_end_logits] cfg = Ok (PyObject (PyAnswers answers)).
Proof.
  intros np_exp np_sum examples features context_list starts ends cfg
         Hoff Hs He Hsrows Herows Hknown Hrel.
  unfold postprocess_qa_predictions, run. simpl.
  rewrite Hs, Nat.eqb_refl. simpl.
  assert (Hgroup : exists fpe, group_features (example_id_to_index examples)
                                 (enumerate features) [] = Ok fpe).
  { rewrite group_features_Ok_iff, map_snd_enumerate. intros f Hf.
    rewrite example_id_to_index_None. intros Hnot. apply Hnot. now apply Hknown. }
  destruct Hgroup as (fpe & Hgroup). rewrite Hgroup. simpl.
  destruct (@examples_loop_total np_exp np_sum cfg features context_list starts ends
              Hoff Hs He Hsrows Herows fpe (enumerate examples) (initial_locals cfg))
    as (l & ->).
  - refine (@group_features_bound _ (length features) _ _ _ _ _ Hgroup).
    + intros i f Hin. now apply in_enumerate in Hin.
    + intros k l Hk. discriminate Hk.
  - intros i ex Hin. apply Hrel. apply in_combine_r in Hin. exact Hin.
  - simpl. unfold return_value. eauto.
Qed.

Lemma call_returns_without_null_mode_witness :
  exists answers,
    postprocess_qa_predictions exp_approx sum_left [hello_example; bare_example]
      [hello_feature] ["hello world"%string]
      [ [ [0; 5; 1; 0]%float ]; [ [0; 1; 6; 0]%float ] ] default_config
    = Ok (PyObject (PyAnswers answers)).
Proof.
  apply call_returns_without_null_mode; try reflexivity.
  - repeat constructor; discriminate.
  - repeat constructor; discriminate.
  - intros f [<- | []]. simpl. auto.
  - intros ex [<- | [<- | []]]; unfold index_in_range; simpl; lia.
Defined.

(** ** The keys of the returned dictionary *)

Lemma existsb_eqb_In k seen : existsb (String.eqb k) seen = true <-> In k seen.
Proof.
  rewrite existsb_exists. split.
  - intros (x & Hx & E). apply String.eqb_eq in E. now subst.
  - intros H. exists k. split; [exact H | apply String.eqb_refl].
Qed.

Lemma first_occurrences_spec ids : forall seen,
  NoDup (first_occurrences seen ids)
  /\ (forall k, In k (first_occurrences seen ids) <-> In k ids /\ ~ In k seen).
Proof.
  induction ids as [| k0 ids IH]; simpl; intros seen.
  - split; [constructor | tauto].
  - destruct (existsb (String.eqb k0) seen) eqn:E.
    + apply existsb_eqb_In in E. destruct (IH seen) as [Hnd Hin].
      split; [exact Hnd |]. intros k. rewrite Hin. intuition congruence.
    + assert (Hnot : ~ In k0 seen).
      { intros H. apply existsb_eqb_In in H. congruence. }
      destruct (IH (seen ++ [k0])) as [Hnd Hin]. split.
      * constructor; [| exact Hnd]. rewrite Hin. intros [_ H]. apply H.
        apply in_or_app. right. now left.
      * intros k. simpl. rewrite Hin, in_app_iff. simpl.
        destruct (string_dec k0 k) as [-> | Hne]; intuition congruence.
Qed.

Lemma first_occurrences_NoDup ids : forall seen,
  NoDup (seen ++ ids) -> first_occurrences seen ids = ids.
Proof.
  induction ids as [| k ids IH]; simpl; intros seen Hnd; [reflexivity |].
  assert (Hnot : ~ In k seen).
  { apply NoDup_remove_2 in Hnd. intros H. apply Hnd. apply in_or_app. now left. }
  destruct (existsb (String.eqb k) seen) eqn:E;
    [apply existsb_eqb_In in E; contradiction |].
  f_equal. apply IH. now rewrite <- app_assoc.
Qed.

Section LoopKeys.
Variable np_exp : float -> float.
Variable np_sum : list float -> float.
Variable cfg : config.
Variable features : list feature.
Variable context_list : list string.
Variables all_start_logits all_end_logits : list (list float).
Variable fpe : dict nat (list nat).

Lemma examples_loop_keys_any rows : forall l l',
  examples_loop np_exp np_sum cfg features context_list
    all_start_logits all_end_logits fpe rows l = Ok l' ->
  keys (all_predictions l')
  = keys (all_predictions l)
    ++ first_occurrences (keys (all_predictions l)) (map ex_id (map snd rows)).
Proof.
  induction rows as [| [idx ex] rows IH]; simpl; intros l l' Hloop.
  - inversion Hloop; subst. now rewrite app_nil_r.
  - apply bind_Ok in Hloop. destruct Hloop as (r & _ & Hloop).
    apply IH in Hloop. rewrite Hloop. simpl.
    destruct (existsb (String.eqb (ex_id ex)) (keys (all_predictions l))) eqn:E.
    + apply existsb_eqb_In in E.
      now rewrite (@keys_set_present _ _ String.eqb String.eqb_eq
                     (all_predictions l) (ex_id ex) (answer r) E).
    + assert (Hnot : ~ In (ex_id ex) (keys (all_predictions l))).
      { intros H. apply existsb_eqb_In in H. congruence. }
      rewrite (@keys_set_new _ _ String.eqb String.eqb_eq
                 (all_predictions l) (ex_id ex) (answer r) Hnot), <- app_assoc.
      reflexivity.
Qed.

End LoopKeys.

(** X8: the dictionary a call returns has, as keys, the ids of the examples
    in the order of their first occurrence, each once; so it never has more
    entries than there are examples, and with pairwise distinct ids its keys
    are the examples' ids in the examples' order. *)
Theorem returned_keys_are_first_occurrences :
  forall np_exp np_sum examples features context_list predictions cfg answers,
    postprocess_qa_predictions np_exp np_sum examples features context_list
      predictions cfg = Ok (PyObject (PyAnswers answers)) ->
    keys answers = first_occurrences [] (map ex_id examples)
    /\ NoDup (keys answers)
    /\ (forall k, In k (keys answers) <-> In k (map ex_id examples))
    /\ length answers <= length examples
    /\ (NoDup (map ex_id examples) -> keys answers = map ex_id examples).
Proof.
  intros np_exp np_sum examples features context_list predictions cfg answers Hcall.
  unfold postprocess_qa_predictions in Hcall.
  apply bind_Ok in Hcall. destruct Hcall as (l & Hrun & Hret).
  inversion Hret; subst answers. clear Hret.
  apply run_Ok in Hrun. destruct Hrun as (fpe & Hloop).
  apply examples_loop_keys_any in Hloop.
  rewrite map_snd_enumerate in Hloop. simpl in Hloop.
  destruct (first_occurrences_spec (map ex_id examples) []) as [Hnd Hin].
  assert (Hlen : length (all_predictions l) <= length examples).
  { replace (length (all_predictions l)) with (length (keys (all_predictions l)))
      by apply length_map.
    rewrite Hloop, <- (length_map ex_id examples).
    apply NoDup_incl_length; [exact Hnd |].
    intros k Hk. now apply Hin in Hk. }
  rewrite Hloop. repeat split; try assumption.
  - intros Hk. now apply Hin in Hk.
  - intros Hk. apply Hin. tauto.
  - intros Hids. now apply first_occurrences_NoDup.
Qed.

Lemma returned_keys_are_first_occurrences_witness :
  keys [("q1"%string, "hello"%string); ("q2"%string, "empty"%string)]
  = first_occurrences [] (map ex_id [hello_example; bare_example; hello_example])
  /\ NoDup (keys [("q1"%string, "hello"%string); ("q2"%string, "empty"%string)])
  /\ (forall k,
        In k (keys [("q1"%string, "hello"%string); ("q2"%string, "empty"%string)])
        <-> In k (map ex_id [hello_example; bare_example; hello_example]))
  /\ length [("q1"%string, "hello"%string); ("q2"%string, "empty"%string)]
     <= length [hello_example; bare_example; hello_example]
  /\ (NoDup (map ex_id [hello_example; bare_example; hello_example]) ->
      keys [("q1"%string, "hello"%string); ("q2"%string, "empty"%string)]
      = map ex_id [hello_example; bare_example; hello_example]).
Proof.
  apply (returned_keys_are_first_occurrences exp_approx sum_left
           [hello_example; bare_example; hello_example] [one_token_feature]
           ["hello world"%string] ten_three_predictions default_config).
  vm_compute. reflexivity.
Defined.

(* ------------------------------------------------------------------ *)
(** * The gathered logits *)

Lemma np_bind_Ok (A B : Type) (r : np_result A) (k : A -> np_result B) (b : B) :
  np_bind r k = NpOk b -> exists a, r = NpOk a /\ k a = NpOk b.
Proof.
  destruct r as [a | e]; simpl; intros H; [eauto | discriminate H].
Qed.

Lemma stretch_length (A : Type) (d : A) (l : list A) (t : nat) :
  length (stretch d l t) = t.
Proof.
  unfold stretch. destruct (length l =? t) eqn:E.
  - now apply Nat.eqb_eq.
  - apply repeat_length.
Qed.

Lemma broadcast_to_shape src tr tc block :
  broadcast_to src tr tc = Some block ->
  length block = tr /\ Forall (fun row => length row = tc) block.
Proof.
  unfold broadcast_to. destruct (_ && _); [| discriminate].
  intros H. inversion H; subst block. clear H. split.
  - now rewrite length_map, stretch_length.
  - apply Forall_map, Forall_forall. intros row _. apply stretch_length.
Qed.

(** An assignment to a block leaves the shape of the array as it was. *)
Lemma set_block_shape a m r0 r1 c src a' :
  Forall (fun row => length row = m) a ->
  set_block a m r0 r1 c src = NpOk a' ->
  length a' = length a /\ Forall (fun row => length row = m) a'.
Proof.
  intros Ha. unfold set_block.
  set (lo := Nat.min r0 (length a)).
  set (hi := Nat.max lo (Nat.min r1 (length a))).
  set (tc := Nat.min c m).
  destruct (broadcast_to src (hi - lo) tc) as [block |] eqn:E; [| discriminate].
  apply broadcast_to_shape in E. destruct E as [Hlen Hrows].
  intros H. inversion H; subst a'. clear H. split.
  - rewrite !length_app, length_map, length_combine, !length_firstn, !length_skipn, Hlen.
    lia.
  - rewrite !Forall_app. repeat split.
    + rewrite Forall_forall in Ha |- *. intros row Hrow.
      apply Ha. rewrite <- (firstn_skipn lo a). apply in_or_app. now left.
    + apply Forall_map, Forall_forall. intros [brow row] Hin. simpl.
      rewrite Forall_forall in Ha, Hrows.
      rewrite length_app, length_skipn, (Hrows brow (in_combine_l _ _ _ _ Hin)).
      assert (Hrow : length row = m).
      { apply Ha. apply in_combine_r in Hin.
        rewrite <- (firstn_skipn lo a). apply in_or_app. right.
        rewrite <- (firstn_skipn (hi - lo) (skipn lo a)). apply in_or_app. now left. }
      unfold tc. lia.
    + rewrite Forall_forall in Ha |- *. intros row Hrow.
      apply Ha. rewrite <- (firstn_skipn hi a). apply in_or_app. now right.
Qed.

Lemma fill_loop_shape n max_len batches : forall st st',
  length (snd st) = n ->
  Forall (fun row => length row = max_len) (snd st) ->
  fill_loop n max_len batches st = NpOk st' ->
  length (snd st') = n /\ Forall (fun row => length row = max_len) (snd st').
Proof.
  induction batches as [| b batches IH]; simpl; intros st st' Hn Hrows Hloop.
  - inversion Hloop; subst. now split.
  - apply np_bind_Ok in Hloop. destruct Hloop as (st1 & Hstep & Hloop).
    unfold fill_step in Hstep.
    apply np_bind_Ok in Hstep. destruct Hstep as (a1 & Hset & Hst1).
    inversion Hst1; subst st1. clear Hst1.
    assert (Hshape : length a1 = length (snd st)
                     /\ Forall (fun row => length row = max_len) a1).
    { destruct (fst st + shape0 b <? n);
        eapply set_block_shape; eassumption. }
    destruct Hshape as [Hlen1 Hrows1].
    apply (IH (fst st + shape0 b, a1) st'); simpl; [congruence | assumption | assumption].
Qed.

(** X9: whatever the batches are, an array that
    [create_and_fill_np_array] returns has one row per row of the dataset
    and [max_len] items in every row. *)
Theorem gathered_array_has_dataset_shape :
  forall batches n max_len a,
    create_and_fill_np_array batches n max_len = NpOk a ->
    length a = n /\ Forall (fun row => length row = max_len) a.
Proof.
  intros batches n max_len a H. unfold create_and_fill_np_array in H.
  apply np_bind_Ok in H. destruct H as (st & Hloop & Hst).
  inversion Hst; subst a. clear Hst.
  apply (@fill_loop_shape n max_len batches (0, np_full n max_len (-100)%float) st);
    trivial; simpl.
  - apply repeat_length.
  - apply Forall_forall. intros row Hrow. apply repeat_spec in Hrow. subst.
    apply repeat_length.
Qed.

Lemma gathered_array_has_dataset_shape_witness :
  length [ [1; 2; -100]%float; [3; 4; -100]%float; [5; 6; 7]%float ] = 3
  /\ Forall (fun row => length row = 3)
            [ [1; 2; -100]%float; [3; 4; -100]%float; [5; 6; 7]%float ].
Proof.
  apply (gathered_array_has_dataset_shape
           [ {| rows := [ [1; 2]%float; [3; 4]%float ]; shape1 := 2 |};
             {| rows := [ [5; 6; 7]%float; [8; 9; 10]%float ]; shape1 := 3 |} ] 3 3).
  vm_compute. reflexivity.
Defined.

(** ** What the gathered array holds *)

Lemma firstn_repeat (A : Type) (x : A) (t k : nat) :
  t <= k -> firstn t (repeat x k) = repeat x t.
Proof.
  revert k. induction t as [| t IH]; intros k Hk; [reflexivity |].
  destruct k as [| k]; [lia |]. simpl. f_equal. apply IH. lia.
Qed.

Lemma skipn_repeat (A : Type) (x : A) (t k : nat) :
  skipn t (repeat x k) = repeat x (k - t).
Proof.
  revert k. induction t as [| t IH]; intros k; simpl.
  - now rewrite Nat.sub_0_r.
  - destruct k as [| k]; [reflexivity |]. simpl. apply IH.
Qed.

Lemma firstn_app_exact (A : Type) (l1 l2 : list A) :
  firstn (length l1) (l1 ++ l2) = l1.
Proof.
  rewrite firstn_app, Nat.sub_diag, firstn_all. simpl. apply app_nil_r.
Qed.

Lemma skipn_app_exact (A : Type) (l1 l2 : list A) (t : nat) :
  skipn (length l1 + t) (l1 ++ l2) = skipn t l2.
Proof.
  rewrite skipn_app, skipn_all2 by lia. simpl. f_equal. lia.
Qed.

Lemma paste_over_fill (m c : nat) (rs : list (list float)) :
  Forall (fun row => length row = c) rs ->
  map (fun br : list float * list float => fst br ++ skipn c (snd br))
      (combine rs (repeat (repeat (-100)%float m) (length rs)))
  = map (padded m) rs.
Proof.
  induction rs as [| row rs IH]; simpl; intros Hrs; [reflexivity |].
  inversion Hrs as [| ? ? Hrow Hrest]; subst.
  rewrite IH by assumption. unfold padded at 2.
  now rewrite skipn_repeat.
Qed.

Lemma broadcast_to_same rs c :
  Forall (fun row => length row = c) rs ->
  broadcast_to {| rows := rs; shape1 := c |} (length rs) c = Some rs.
Proof.
  intros Hrs. unfold broadcast_to, broadcast_dim, shape0. simpl.
  rewrite !Nat.eqb_refl. simpl. f_equal.
  unfold stretch at 2. rewrite Nat.eqb_refl.
  rewrite <- (map_id rs) at 2. apply map_ext_in.
  intros row Hrow. rewrite Forall_forall in Hrs.
  unfold stretch. now rewrite (Hrs row Hrow), Nat.eqb_refl.
Qed.

(** Writing [rs] over the first untouched rows of the array. *)
Lemma set_block_paste (pre rs : list (list float)) (k m c r1 : nat) :
  length rs <= k ->
  c <= m ->
  Forall (fun row => length row = c) rs ->
  Nat.min r1 (length pre + k) = length pre + length rs ->
  set_block (pre ++ np_full k m (-100)%float) m (length pre) r1 c
            {| rows := rs; shape1 := c |}
  = NpOk (pre ++ map (padded m) rs ++ np_full (k - length rs) m (-100)%float).
Proof.
  intros Hk Hc Hrs Hr1. unfold set_block. cbv zeta.
  assert (Hlen : length (pre ++ np_full k m (-100)%float) = length pre + k).
  { rewrite length_app. unfold np_full. now rewrite repeat_length. }
  rewrite !Hlen, Hr1.
  replace (Nat.min (length pre) (length pre + k)) with (length pre) by lia.
  replace (Nat.max (length pre) (length pre + length rs))
    with (length pre + length rs) by lia.
  replace (length pre + length rs - length pre) with (length rs) by lia.
  replace (Nat.min c m) with c by lia.
  rewrite (broadcast_to_same Hrs).
  rewrite firstn_app_exact, skipn_app_exact.
  rewrite <- (Nat.add_0_r (length pre)) at 1. rewrite skipn_app_exact. simpl skipn.
  unfold np_full. rewrite firstn_repeat by exact Hk.
  rewrite (paste_over_fill m Hrs), skipn_repeat. reflexivity.
Qed.

Lemma slice_to_nat (A : Type) (l : list A) (k : nat) :
  slice_to l (Z.of_nat k) = firstn k l.
Proof.
  unfold slice_to, clamp_index.
  destruct (Z.of_nat k <? 0)%Z eqn:E; [apply Z.ltb_lt in E; lia |].
  destruct (Nat.le_gt_cases k (length l)) as [Hle | Hgt].
  - f_equal. lia.
  - replace (Z.to_nat (Z.min (Z.of_nat k) (Z.of_nat (length l)))) with (length l) by lia.
    rewrite firstn_all. symmetry. apply firstn_all2. lia.
Qed.

Section FillContent.
Variables n max_len : nat.

(** A batch that fits before the end of the array. *)
Lemma fill_step_fits pre b :
  well_formed b ->
  shape1 b <= max_len ->
  length pre + shape0 b <= n ->
  fill_step n max_len (length pre, pre ++ np_full (n - length pre) max_len (-100)%float) b
  = NpOk (length pre + shape0 b,
          (pre ++ map (padded max_len) (rows b))
          ++ np_full (n - (length pre + shape0 b)) max_len (-100)%float).
Proof.
  intros Hwf Hc Hfit. unfold fill_step, shape0 in *. simpl fst. simpl snd.
  destruct b as [rs c]. unfold well_formed in Hwf. simpl in *.
  destruct (length pre + length rs <? n) eqn:E.
  - apply Nat.ltb_lt in E.
    rewrite set_block_paste; try assumption; try lia.
    simpl. rewrite <- app_assoc.
    now replace (n - length pre - length rs) with (n - (length pre + length rs)) by lia.
  - apply Nat.ltb_ge in E. assert (Heq : length pre + length rs = n) by lia.
    unfold rows_to. simpl.
    replace (Z.of_nat n - Z.of_nat (length pre))%Z with (Z.of_nat (length rs)) by lia.
    rewrite slice_to_nat, firstn_all.
    rewrite set_block_paste; try assumption; try lia.
    simpl. rewrite <- app_assoc.
    now replace (n - length pre - length rs) with (n - (length pre + length rs)) by lia.
Qed.

(** A batch that reaches past the end of the array: its first rows fill the
    array. *)
Lemma fill_step_overflows pre b :
  well_formed b ->
  shape1 b <= max_len ->
  length pre <= n ->
  n < length pre + shape0 b ->
  fill_step n max_len (length pre, pre ++ np_full (n - length pre) max_len (-100)%float) b
  = NpOk (length pre + shape0 b,
          pre ++ map (padded max_len) (firstn (n - length pre) (rows b))).
Proof.
  intros Hwf Hc Hpre Hover. unfold fill_step, shape0 in *. simpl fst. simpl snd.
  destruct b as [rs c]. unfold well_formed in Hwf. simpl in *.
  destruct (length pre + length rs <? n) eqn:E; [apply Nat.ltb_lt in E; lia |].
  unfold rows_to. simpl.
  replace (Z.of_nat n - Z.of_nat (length pre))%Z
    with (Z.of_nat (n - length pre)) by lia.
  rewrite slice_to_nat.
  assert (Hlen : length (firstn (n - length pre) rs) = n - length pre).
  { rewrite length_firstn. lia. }
  rewrite set_block_paste.
  - simpl. rewrite Hlen, Nat.sub_diag. simpl. now rewrite app_nil_r.
  - lia.
  - exact Hc.
  - rewrite Forall_forall in Hwf |- *. intros row Hrow. apply Hwf.
    rewrite <- (firstn_skipn (n - length pre) rs). apply in_or_app. now left.
  - lia.
Qed.

Lemma fill_loop_content batches : forall pre,
  Forall well_formed batches ->
  Forall (fun b => shape1 b <= max_len) batches ->
  length pre + length (batch_rows (removelast batches)) <= n ->
  exists step,
    fill_loop n max_len batches
      (length pre, pre ++ np_full (n - length pre) max_len (-100)%float)
    = NpOk (step,
            firstn n (pre ++ map (padded max_len) (batch_rows batches))
            ++ np_full (n - (length pre + length (batch_rows batches)))
                 max_len (-100)%float).
Proof.
  induction batches as [| b rest IH]; intros pre Hwf Hcols Hfit.
  - simpl in *. exists (length pre).
    rewrite app_nil_r, firstn_all2 by lia. repeat f_equal. lia.
  - inversion Hwf as [| ? ? Hb Hrest]; subst.
    inversion Hcols as [| ? ? Hcb Hcrest]; subst.
    cbn [fill_loop]. unfold batch_rows in *. cbn [map concat].
    rewrite length_app, map_app.
    destruct (Nat.le_gt_cases (length pre + shape0 b) n) as [Hle | Hgt].
    + rewrite (fill_step_fits pre Hb Hcb Hle). cbn [np_bind].
      specialize (IH (pre ++ map (padded max_len) (rows b)) Hrest Hcrest).
      rewrite length_app, length_map in IH. fold (shape0 b) in IH |- *.
      destruct IH as (step & IH).
      * destruct rest as [| b' rest']; [simpl; lia |].
        change (removelast (b :: b' :: rest'))
          with (b :: removelast (b' :: rest')) in Hfit.
        cbn [map concat] in Hfit. rewrite length_app in Hfit.
        fold (shape0 b) in Hfit. lia.
      * exists step. rewrite IH. rewrite <- !app_assoc.
        now rewrite Nat.add_assoc.
    + assert (Hlast : rest = []).
      { destruct rest as [| b' rest']; [reflexivity |].
        change (removelast (b :: b' :: rest'))
          with (b :: removelast (b' :: rest')) in Hfit.
        cbn [map concat] in Hfit. rewrite length_app in Hfit.
        fold (shape0 b) in Hfit. lia. }
      subst rest. simpl in Hfit.
      rewrite (fill_step_overflows pre Hb Hcb); [| lia | exact Hgt].
      cbn [np_bind fill_loop map concat]. rewrite app_nil_r.
      exists (length pre + shape0 b). f_equal. f_equal.
      unfold shape0 in Hgt. simpl length.
      replace (n - (length pre + (length (rows b) + 0))) with 0 by lia.
      unfold np_full. simpl repeat.
      rewrite app_nil_r, firstn_app, (firstn_all2 pre) by lia.
      f_equal. symmetry. apply firstn_map.
Qed.

End FillContent.

(** X10: for well-formed batches none wider than [max_len], of which all
    but the last fit into [n] rows together, the gathered array holds the
    rows of the batches in order, each followed by -100 up to [max_len] items;
    rows of the last batch that do not fit are left out, and rows that no batch
    reaches hold -100 throughout. *)
Theorem gathered_array_holds_the_batches :
  forall batches n max_len,
    Forall well_formed batches ->
    Forall (fun b => shape1 b <= max_len) batches ->
    length (batch_rows (removelast batches)) <= n ->
    create_and_fill_np_array batches n max_len
    = NpOk (firstn n (map (padded max_len) (batch_rows batches))
            ++ np_full (n - length (batch_rows batches)) max_len (-100)%float).
Proof.
  intros batches n max_len Hwf Hcols Hfit.
  unfold create_and_fill_np_array.
  destruct (@fill_loop_content n max_len batches [] Hwf Hcols Hfit) as (step & Hloop).
  simpl in Hloop. rewrite Nat.sub_0_r in Hloop. rewrite Hloop. reflexivity.
Qed.

Lemma gathered_array_holds_the_batches_witness :
  create_and_fill_np_array
    [ {| rows := [ [1; 2]%float; [3; 4]%float ]; shape1 := 2 |};
      {| rows := [ [5; 6; 7]%float; [8; 9; 10]%float ]; shape1 := 3 |} ] 3 3
  = NpOk (firstn 3 (map (padded 3)
                        (batch_rows
                           [ {| rows := [ [1; 2]%float; [3; 4]%float ]; shape1 := 2 |};
                             {| rows := [ [5; 6; 7]%float; [8; 9; 10]%float ];
                                shape1 := 3 |} ]))
          ++ np_full (3 - length
                            (batch_rows
                               [ {| rows := [ [1; 2]%float; [3; 4]%float ]; shape1 := 2 |};
                                 {| rows := [ [5; 6; 7]%float; [8; 9; 10]%float ];
                                    shape1 := 3 |} ]))
               3 (-100)%float).
Proof.
  apply gathered_array_holds_the_batches.
  - repeat constructor.
  - repeat constructor.
  - simpl. lia.
Defined.

(** ** Batches that do not fit the array *)

Lemma set_block_too_wide a m r0 r1 src :
  1 <= m -> m < shape1 src ->
  exists s t, set_block a m r0 r1 (shape1 src) src = NpRaise (ValueError_broadcast s t).
Proof.
  intros Hm Hwide. unfold set_block, broadcast_to, broadcast_dim.
  replace (Nat.min (shape1 src) m) with m by lia.
  assert (E1 : (shape1 src =? m) = false) by (apply Nat.eqb_neq; lia).
  assert (E2 : (shape1 src =? 1) = false) by (apply Nat.eqb_neq; lia).
  rewrite E1, E2, andb_false_r. eauto.
Qed.

Lemma fill_step_Raise n max_len st b e :
  fill_step n max_len st b = NpRaise e -> exists s t, e = ValueError_broadcast s t.
Proof.
  unfold fill_step.
  destruct (fst st + shape0 b <? n); unfold set_block;
    destruct (broadcast_to _ _ _); simpl; intros H; inversion H; eauto.
Qed.

Lemma fill_loop_Raise n max_len batches : forall st e,
  fill_loop n max_len batches st = NpRaise e -> exists s t, e = ValueError_broadcast s t.
Proof.
  induction batches as [| b batches IH]; simpl; intros st e H; [discriminate H |].
  destruct (fill_step n max_len st b) as [st1 | e1] eqn:E; simpl in H.
  - now apply IH in H.
  - inversion H; subst. now apply fill_step_Raise in E.
Qed.

(** X11: when some batch has more than [max_len] columns ([max_len >= 1]),
    [create_and_fill_np_array] returns no array: numpy refuses to broadcast a
    batch into the narrower block and the call ends in that [ValueError]. *)
Theorem wide_batch_is_refused :
  forall batches n max_len,
    1 <= max_len ->
    Exists (fun b => max_len < shape1 b) batches ->
    exists s t,
      create_and_fill_np_array batches n max_len = NpRaise (ValueError_broadcast s t).
Proof.
  intros batches n max_len Hm Hwide. unfold create_and_fill_np_array.
  assert (Hloop : forall st, exists e, fill_loop n max_len batches st = NpRaise e).
  { induction Hwide as [b rest Hb | b rest _ IH]; intros st; simpl.
    - unfold fill_step.
      assert (Hset : forall r1 src, shape1 src = shape1 b ->
                exists e, set_block (snd st) max_len (fst st) r1 (shape1 b) src = NpRaise e).
      { intros r1 src Hsrc. rewrite <- Hsrc.
        destruct (@set_block_too_wide (snd st) max_len (fst st) r1 src Hm) as (s & t & ->);
          [lia | eauto]. }
      destruct (fst st + shape0 b <? n).
      + destruct (Hset (fst st + shape0 b) b eq_refl) as (e & ->). simpl. eauto.
      + destruct (Hset n (rows_to b (Z.of_nat n - Z.of_nat (fst st))) eq_refl) as (e & ->).
        simpl. eauto.
    - destruct (fill_step n max_len st b) as [st1 | e1]; simpl; [apply IH | eauto]. }
  destruct (Hloop (0, np_full n max_len (-100)%float)) as (e & He).
  rewrite He. simpl. apply fill_loop_Raise in He. destruct He as (s & t & ->). eauto.
Qed.

Lemma wide_batch_is_refused_witness :
  exists s t,
    create_and_fill_np_array
      [ {| rows := [ [1; 2]%float; [3; 4]%float ]; shape1 := 2 |};
        {| rows := [ [5; 6; 7]%float; [8; 9; 10]%float ]; shape1 := 3 |} ] 4 2
    = NpRaise (ValueError_broadcast s t).
Proof.
  apply wide_batch_is_refused; [lia |].
  apply Exists_cons_tl, Exists_cons_hd. simpl. lia.
Defined.

(* ------------------------------------------------------------------ *)
(** * From the batches to the rows of the output file *)

Lemma fold_max_spec xs : forall x,
  x <= fold_left Nat.max xs x
  /\ (forall y, In y xs -> y <= fold_left Nat.max xs x).
Proof.
  induction xs as [| z xs IH]; simpl; intros x.
  - split; [lia | intros y []].
  - destruct (IH (Nat.max x z)) as [Hx Hall]. split; [lia |].
    intros y [<- | Hy]; [lia | now apply Hall].
Qed.

Lemma py_max_spec l m :
  py_max l = NpOk m -> forall x, In x l -> x <= m.
Proof.
  destruct l as [| x0 xs]; simpl; [discriminate |].
  intros H. inversion H; subst m. clear H.
  destruct (fold_max_spec xs x0) as [H0 Hall].
  intros x [<- | Hx]; [exact H0 | now apply Hall].
Qed.

Lemma create_and_fill_shape batches n max_len a :
  create_and_fill_np_array batches n max_len = NpOk a ->
  length a = n /\ Forall (fun row => length row = max_len) a.
Proof.
  unfold create_and_fill_np_array. intros H.
  apply np_bind_Ok in H. destruct H as (st & Hloop & Hst).
  inversion Hst; subst a. clear Hst.
  apply (@fill_loop_shape n max_len batches (0, np_full n max_len (-100)%float) st);
    trivial; simpl.
  - apply repeat_length.
  - apply Forall_forall. intros row Hrow. apply repeat_spec in Hrow. subst.
    apply repeat_length.
Qed.

(** X12: whatever the batches of logits are, once both arrays are gathered
    the post-processing is handed a pair of arrays with one row per feature,
    so neither of its two checks on the arguments fails: the only exceptions
    it can still raise are [KeyError], [IndexError] and [UnboundLocalError]. *)
Theorem gathered_logits_pass_the_checks :
  forall np_exp np_sum cfg context_list all_start_logits all_end_logits
         eval_examples eval_dataset e,
    evaluation_rows np_exp np_sum cfg context_list all_start_logits all_end_logits
      eval_examples eval_dataset = NpOk (Raise e) ->
    e = KeyError \/ e = IndexError \/ e = UnboundLocalError.
Proof.
  intros np_exp np_sum cfg context_list starts ends examples features e H.
  unfold evaluation_rows in H.
  apply np_bind_Ok in H. destruct H as (max_len & _ & H).
  apply np_bind_Ok in H. destruct H as (start_concat & Hstart & H).
  apply np_bind_Ok in H. destruct H as (end_concat & _ & H).
  inversion H as [Hpost]. clear H.
  apply create_and_fill_shape in Hstart. destruct Hstart as [Hlen _].
  unfold post_processing_function in Hpost.
  split_bind Hpost; [| discriminate Hpost].
  split_bind Hpost; [| discriminate Hpost].
  apply run_after_checks in Hpost; [exact Hpost | reflexivity | exact Hlen].
Qed.

Lemma gathered_logits_pass_the_checks_witness :
  UnboundLocalError = KeyError \/ UnboundLocalError = IndexError
  \/ UnboundLocalError = UnboundLocalError.
Proof.
  apply (gathered_logits_pass_the_checks exp_approx sum_left null_config
           ["hello world"%string]
           [ {| rows := [ [4; 1]%float ]; shape1 := 2 |} ]
           [ {| rows := [ [6; 2]%float ]; shape1 := 2 |} ]
           [bare_example; hello_example] [one_token_feature]).
  vm_compute. reflexivity.
Defined.

Lemma run_returns_without_null_mode
    np_exp np_sum examples features context_list all_start_logits all_end_logits cfg :
  version_2_with_negative cfg = false ->
  length all_start_logits = length features ->
  length all_end_logits = length features ->
  Forall (fun row => row <> []) all_start_logits ->
  Forall (fun row => row <> []) all_end_logits ->
  (forall f, In f features -> In (example_id f) (map ex_id examples)) ->
  (forall ex, In ex examples -> index_in_range (length context_list) (relevant ex)) ->
  exists l,
    run np_exp np_sum examples features context_list
      [all_start_logits; all_end_logits] cfg = Ok l.
Proof.
  intros Hoff Hs He Hsrows Herows Hknown Hrel.
  unfold run. simpl. rewrite Hs, Nat.eqb_refl. simpl.
  destruct (proj2 (group_features_Ok_iff (example_id_to_index examples)
                     (enumerate features) [])) as (fpe & Hgroup).
  { rewrite map_snd_enumerate. intros f Hf.
    rewrite example_id_to_index_None. intros Hnot. apply Hnot. now apply Hknown. }
  rewrite Hgroup. simpl.
  apply (@examples_loop_total np_exp np_sum cfg features context_list
           all_start_logits all_end_logits Hoff Hs He Hsrows Herows).
  - refine (@group_features_bound _ (length features) _ _ _ _ _ Hgroup).
    + intros i f Hin. now apply in_enumerate in Hin.
    + intros k l Hk. discriminate Hk.
  - intros i ex Hin. apply Hrel. now apply in_combine_r in Hin.
Qed.

Lemma rows_not_empty max_len (a : list (list float)) :
  1 <= max_len ->
  Forall (fun row => length row = max_len) a ->
  Forall (fun row => row <> []) a.
Proof.
  intros Hm Ha. rewrite Forall_forall in *. intros row Hrow Hnil.
  specialize (Ha row Hrow). subst row. simpl in Ha. lia.
Qed.

(** X13: without null-answer mode the evaluation yields its rows, one per
    distinct example id in the order of first occurrence, provided that the
    batches are well-formed arrays, some start batch has a column, no end
    batch is wider than the widest start batch, all batches but the last fit
    the number of features, every feature names the id of an example and
    every example's [relevant] is a valid index into [context_list]. *)
Theorem evaluation_yields_a_row_per_id :
  forall np_exp np_sum cfg context_list all_start_logits all_end_logits
         eval_examples eval_dataset,
    version_2_with_negative cfg = false ->
    Forall well_formed all_start_logits ->
    Forall well_formed all_end_logits ->
    Exists (fun b => 1 <= shape1 b) all_start_logits ->
    Forall (fun b => Exists (fun b' => shape1 b <= shape1 b') all_start_logits)
           all_end_logits ->
    length (batch_rows (removelast all_start_logits)) <= length eval_dataset ->
    length (batch_rows (removelast all_end_logits)) <= length eval_dataset ->
    (forall f, In f eval_dataset -> In (example_id f) (map ex_id eval_examples)) ->
    (forall ex, In ex eval_examples ->
                index_in_range (length context_list) (relevant ex)) ->
    exists rows,
      evaluation_rows np_exp np_sum cfg context_list all_start_logits all_end_logits
        eval_examples eval_dataset = NpOk (Ok rows)
      /\ map fst rows = first_occurrences [] (map ex_id eval_examples).
Proof.
  intros np_exp np_sum cfg context_list starts ends examples features
         Hoff Hwfs Hwfe Hcol Hwide Hfits Hfite Hknown Hrel.
  unfold evaluation_rows.
  destruct (py_max (map shape1 starts)) as [max_len | e] eqn:Emax.
  2:{ destruct starts; [inversion Hcol | discriminate Emax]. }
  pose proof (py_max_spec _ Emax) as Hmax.
  assert (Hm : 1 <= max_len).
  { apply Exists_exists in Hcol. destruct Hcol as (b & Hb & Hb1).
    specialize (Hmax (shape1 b) (in_map shape1 _ _ Hb)). lia. }
  assert (Hcs : Forall (fun b => shape1 b <= max_len) starts).
  { apply Forall_forall. intros b Hb. apply Hmax. now apply in_map. }
  assert (Hce : Forall (fun b => shape1 b <= max_len) ends).
  { rewrite Forall_forall in Hwide |- *. intros b Hb.
    specialize (Hwide b Hb). apply Exists_exists in Hwide.
    destruct Hwide as (b' & Hb' & Hle).
    specialize (Hmax (shape1 b') (in_map shape1 _ _ Hb')). lia. }
  simpl np_bind.
  destruct (@fill_loop_content (length features) max_len starts [] Hwfs Hcs Hfits)
    as (step_s & Hloop_s).
  destruct (@fill_loop_content (length features) max_len ends [] Hwfe Hce Hfite)
    as (step_e & Hloop_e).
  simpl in Hloop_s, Hloop_e. rewrite Nat.sub_0_r in Hloop_s, Hloop_e.
  destruct (create_and_fill_np_array starts (length features) max_len)
    as [start_concat | es] eqn:Es;
    [| unfold create_and_fill_np_array in Es; rewrite Hloop_s in Es; discriminate Es].
  destruct (create_and_fill_np_array ends (length features) max_len)
    as [end_concat | ee] eqn:Ee;
    [| unfold create_and_fill_np_array in Ee; rewrite Hloop_e in Ee; discriminate Ee].
  simpl np_bind.
  apply create_and_fill_shape in Es, Ee.
  destruct Es as [Hlen_s Hrows_s]. destruct Ee as [Hlen_e Hrows_e].
  destruct (@run_returns_without_null_mode np_exp np_sum examples features context_list
              start_concat end_concat cfg Hoff Hlen_s Hlen_e
              (rows_not_empty Hm Hrows_s) (rows_not_empty Hm Hrows_e) Hknown Hrel)
    as (l & Hrun).
  unfold post_processing_function. rewrite Hrun. simpl.
  eexists. split; [reflexivity |].
  apply run_Ok in Hrun. destruct Hrun as (fpe & Hloop).
  apply examples_loop_keys_any in Hloop.
  rewrite map_snd_enumerate in Hloop. exact Hloop.
Qed.

Lemma evaluation_yields_a_row_per_id_witness :
  exists rows,
    evaluation_rows exp_approx sum_left default_config ["hello world"%string]
      [ {| rows := [ [0; 5; 1; 0]%float ]; shape1 := 4 |} ]
      [ {| rows := [ [0; 1; 6; 0]%float ]; shape1 := 4 |} ]
      [hello_example; bare_example] [hello_feature] = NpOk (Ok rows)
    /\ map fst rows = first_occurrences [] (map ex_id [hello_example; bare_example]).
Proof.
  apply evaluation_yields_a_row_per_id.
  - reflexivity.
  - repeat constructor.
  - repeat constructor.
  - apply Exists_cons_hd. simpl. lia.
  - repeat constructor.
  - simpl. lia.
  - simpl. lia.
  - intros f [<- | []]. simpl. auto.
  - intros ex [<- | [<- | []]]; unfold index_in_range; simpl; lia.
Defined.

(** X14: [post_processing_function] returns one reference per example and one
    prediction per distinct example id: the ids of the predictions are the
    ids of the examples in the order of their first occurrence, each once.
    With pairwise distinct ids the predictions carry the ids of the references
    position by position; as soon as an id repeats there are fewer predictions
    than references. *)
Theorem predictions_line_up_with_references :
  forall np_exp np_sum cfg context_list examples features predictions ep,
    post_processing_function np_exp np_sum cfg context_list examples features
      predictions = Ok ep ->
    ep_label_ids ep = map ex_id examples
    /\ map fst (ep_predictions ep) = first_occurrences [] (map ex_id examples)
    /\ NoDup (map fst (ep_predictions ep))
    /\ (forall k, In k (map fst (ep_predictions ep)) <-> In k (ep_label_ids ep))
    /\ (NoDup (map ex_id examples) ->
        map fst (ep_predictions ep) = ep_label_ids ep)
    /\ (~ NoDup (map ex_id examples) ->
        length (ep_predictions ep) < length (ep_label_ids ep)).
Proof.
  intros np_exp np_sum cfg context_list examples features predictions ep Hpost.
  unfold post_processing_function in Hpost.
  apply bind_Ok in Hpost. destruct Hpost as (l & Hrun & Hep).
  inversion Hep; subst ep. clear Hep. simpl.
  apply run_Ok in Hrun. destruct Hrun as (fpe & Hloop).
  apply examples_loop_keys_any in Hloop.
  rewrite map_snd_enumerate in Hloop. simpl in Hloop.
  unfold keys in Hloop.
  destruct (first_occurrences_spec (map ex_id examples) []) as [Hnd Hin].
  split; [reflexivity |]. split; [exact Hloop |].
  rewrite Hloop. split; [exact Hnd |]. split; [| split].
  - intros k. rewrite Hin. simpl. tauto.
  - intros Hids. now apply first_occurrences_NoDup.
  - intros Hdup.
    rewrite <- (length_map fst (all_predictions l)), Hloop.
    destruct (Nat.lt_ge_cases (length (first_occurrences [] (map ex_id examples)))
                (length (map ex_id examples))) as [Hlt | Hge]; [exact Hlt |].
    exfalso. apply Hdup.
    apply (NoDup_incl_NoDup Hnd Hge).
    intros k Hk. now apply Hin in Hk.
Qed.

Lemma predictions_line_up_with_references_witness :
  exists ep,
    post_processing_function exp_approx sum_left default_config
      ["hello world"%string] [hello_example; bare_example; hello_example]
      [hello_feature] hello_predictions = Ok ep
    /\ ep_label_ids ep = map ex_id [hello_example; bare_example; hello_example]
    /\ map fst (ep_predictions ep)
       = first_occurrences [] (map ex_id [hello_example; bare_example; hello_example])
    /\ NoDup (map fst (ep_predictions ep))
    /\ (forall k, In k (map fst (ep_predictions ep)) <-> In k (ep_label_ids ep))
    /\ (NoDup (map ex_id [hello_example; bare_example; hello_example]) ->
        map fst (ep_predictions ep) = ep_label_ids ep)
    /\ (~ NoDup (map ex_id [hello_example; bare_example; hello_example]) ->
        length (ep_predictions ep) < length (ep_label_ids ep)).
Proof.
  eexists. split; [vm_compute; reflexivity |].
  apply (predictions_line_up_with_references exp_approx sum_left default_config
           ["hello world"%string] [hello_example; bare_example; hello_example]
           [hello_feature] hello_predictions).
  vm_compute. reflexivity.
Defined.

(* ------------------------------------------------------------------ *)
(** * The prepared features *)

Lemma traverse_Ok_inv (A B : Type) (f : A -> result B) (l : list A) : forall bs,
  traverse f l = Ok bs ->
  length bs = length l
  /\ (forall i b, nth_error bs i = Some b ->
        exists a, nth_error l i = Some a /\ f a = Ok b).
Proof.
  induction l as [| a l IH]; simpl; intros bs H.
  - inversion H; subst. split; [reflexivity |]. intros [| i] b Hb; discriminate Hb.
  - apply bind_Ok in H. destruct H as (b0 & Hb0 & H).
    apply bind_Ok in H. destruct H as (bs0 & Hbs0 & H).
    inversion H; subst bs. clear H.
    destruct (IH _ Hbs0) as [Hlen Hnth]. split; [simpl; now rewrite Hlen |].
    intros [| i] b Hb; simpl in *.
    + inversion Hb; subst. eauto.
    + now apply Hnth.
Qed.

Lemma getitem_nat_Ok (A : Type) (l : list A) (i : nat) (a : A) :
  getitem_nat l i = Ok a <-> nth_error l i = Some a.
Proof.
  unfold getitem_nat. destruct (nth_error l i); split; intros H;
    inversion H; reflexivity.
Qed.

Lemma getitem_In (A : Type) (l : list A) (i : Z) (a : A) :
  getitem l i = Ok a -> In a l.
Proof.
  unfold getitem.
  destruct (0 <=? i)%Z; [| destruct (- Z.of_nat (length l) <=? i)%Z; [| discriminate]];
    intros H; apply getitem_nat_Ok in H; now apply nth_error_In in H.
Qed.

Lemma nth_error_enumerate (A : Type) (l : list A) k ko :
  nth_error (enumerate l) k = Some ko ->
  fst ko = k /\ nth_error l k = Some (snd ko).
Proof.
  unfold enumerate. intros H.
  assert (Hgen : forall (l : list A) start k ko,
            nth_error (combine (seq start (length l)) l) k = Some ko ->
            fst ko = start + k /\ nth_error l k = Some (snd ko)).
  { clear. induction l as [| a l IH]; intros start k ko H; simpl in H.
    - destruct k; discriminate H.
    - destruct k as [| k]; simpl in H.
      + inversion H; subst. simpl. split; [lia | reflexivity].
      + apply IH in H. destruct H as [Hk Hnth]. split; [lia | exact Hnth]. }
  apply Hgen in H. exact H.
Qed.

Lemma length_enumerate (A : Type) (l : list A) : length (enumerate l) = length l.
Proof. unfold enumerate. rewrite length_combine, length_seq. apply Nat.min_id. Qed.

Section PreparedWindow.
Variable pad_on_right : bool.
Variable examples : example_columns.
Variable tok : batch_encoding.

(** What the body of the loop makes of window [i]. *)
Lemma prepare_window_Ok i f :
  prepare_window pad_on_right examples tok i = Ok f ->
  exists sids sample offs,
    nth_error (enc_sequence_ids tok) i = Some sids
    /\ nth_error (overflow_to_sample_mapping tok) i = Some sample
    /\ getitem (col_id examples) sample = Ok (example_id f)
    /\ nth_error (enc_offset_mapping tok) i = Some offs
    /\ length (offset_mapping f) = length offs
    /\ (forall k entry,
          nth_error (offset_mapping f) k = Some entry ->
          exists o sid,
            nth_error offs k = Some o
            /\ nth_error sids k = Some sid
            /\ entry = (if is_context (if pad_on_right then 1 else 0) sid
                        then Some o else None))
    /\ token_is_max_context f = None.
Proof.
  unfold prepare_window. intros H.
  apply bind_Ok in H. destruct H as (sids & Hsids & H).
  apply bind_Ok in H. destruct H as (sample & Hsample & H).
  apply bind_Ok in H. destruct H as (eid & Heid & H).
  apply bind_Ok in H. destruct H as (offs & Hoffs & H).
  apply bind_Ok in H. destruct H as (masked & Hmasked & H).
  inversion H; subst f. clear H. simpl.
  apply getitem_nat_Ok in Hsids, Hsample, Hoffs.
  apply traverse_Ok_inv in Hmasked. destruct Hmasked as [Hlen Hnth].
  rewrite length_enumerate in Hlen.
  exists sids, sample, offs. repeat split; try assumption.
  intros k entry Hentry.
  destruct (Hnth k entry Hentry) as (ko & Hko & Hmask).
  apply nth_error_enumerate in Hko. destruct Hko as [Hk Ho].
  unfold mask_offset in Hmask.
  apply bind_Ok in Hmask. destruct Hmask as (sid & Hsid & Hmask).
  rewrite Hk in Hsid. apply getitem_nat_Ok in Hsid.
  inversion Hmask. exists (snd ko), sid. auto.
Qed.

End PreparedWindow.

Lemma nth_error_seq_0 n i j : nth_error (seq 0 n) i = Some j -> j = i.
Proof.
  intros H. assert (Hi : i < n).
  { assert (Hlt : i < length (seq 0 n)) by (apply nth_error_Some; now rewrite H).
    now rewrite length_seq in Hlt. }
  rewrite nth_error_nth' with (d := 0) in H by now rewrite length_seq.
  rewrite seq_nth in H by exact Hi. inversion H. reflexivity.
Qed.

Lemma is_context_true ctx sid : is_context ctx sid = true <-> sid = Some ctx.
Proof.
  destruct sid as [j |]; simpl.
  - rewrite Nat.eqb_eq. split; [intros -> | intros H; inversion H]; reflexivity.
  - split; discriminate.
Qed.

(** X15: when the features of a batch are prepared without an exception,
    there is one feature per window of the encoding; the feature of window [i]
    carries the id of the example that [overflow_to_sample_mapping[i]] points
    at, and its [offset_mapping] has one entry per token of the window: the
    tokenizer's offsets where [sequence_ids] is the context index, [None]
    elsewhere.  The second sentences handed to the tokenizer are the contexts
    at the [relevant] indices. *)
Theorem prepared_features_mirror_the_windows :
  forall lstrip tokenizer pad_on_right context_list examples features,
    prepare_validation_features lstrip tokenizer pad_on_right context_list examples
      = Ok features ->
    exists second_sentence,
      length second_sentence = length (col_relevant examples)
      /\ (forall j c, nth_error second_sentence j = Some c ->
            exists r, nth_error (col_relevant examples) j = Some r
                      /\ getitem context_list r = Ok c)
      /\ let tok := tokenizer (map lstrip (col_question examples)) second_sentence in
         let context_index := if pad_on_right then 1 else 0 in
         length features = length (input_ids tok)
         /\ forall i f, nth_error features i = Some f ->
              exists sids sample offs,
                nth_error (enc_sequence_ids tok) i = Some sids
                /\ nth_error (overflow_to_sample_mapping tok) i = Some sample
                /\ getitem (col_id examples) sample = Ok (example_id f)
                /\ nth_error (enc_offset_mapping tok) i = Some offs
                /\ length (offset_mapping f) = length offs
                /\ (forall k entry,
                      nth_error (offset_mapping f) k = Some entry ->
                      exists o sid,
                        nth_error offs k = Some o
                        /\ nth_error sids k = Some sid
                        /\ entry = (if is_context context_index sid
                                    then Some o else None))
                /\ token_is_max_context f = None.
Proof.
  intros lstrip tokenizer pad_on_right context_list examples features H.
  unfold prepare_validation_features in H.
  apply bind_Ok in H. destruct H as (ss & Hss & H).
  exists ss. apply traverse_Ok_inv in Hss. destruct Hss as [Hlen Hss].
  split; [exact Hlen |]. split; [exact Hss |].
  cbv zeta. apply traverse_Ok_inv in H. destruct H as [Hn Hnth].
  rewrite length_seq in Hn. split; [exact Hn |].
  intros i f Hf. destruct (Hnth i f Hf) as (j & Hj & Hwin).
  apply nth_error_seq_0 in Hj. subst j.
  now apply prepare_window_Ok in Hwin.
Qed.

Lemma prepared_features_mirror_the_windows_witness :
  exists second_sentence,
    length second_sentence = length (col_relevant one_question)
    /\ (forall j c, nth_error second_sentence j = Some c ->
          exists r, nth_error (col_relevant one_question) j = Some r
                    /\ getitem ["hello world"%string] r = Ok c)
    /\ let tok := two_window_tokenizer (map lstrip_spaces (col_question one_question))
                    second_sentence in
       let context_index := if true then 1 else 0 in
       length [first_window_feature;
               {| example_id := "q1"%string;
                  offset_mapping := [None; None; None; Some [6; 11]%Z; None];
                  token_is_max_context := None |}]
       = length (input_ids tok)
       /\ forall i f,
            nth_error [first_window_feature;
                       {| example_id := "q1"%string;
                          offset_mapping := [None; None; None; Some [6; 11]%Z; None];
                          token_is_max_context := None |}] i = Some f ->
            exists sids sample offs,
              nth_error (enc_sequence_ids tok) i = Some sids
              /\ nth_error (overflow_to_sample_mapping tok) i = Some sample
              /\ getitem (col_id one_question) sample = Ok (example_id f)
              /\ nth_error (enc_offset_mapping tok) i = Some offs
              /\ length (offset_mapping f) = length offs
              /\ (forall k entry,
                    nth_error (offset_mapping f) k = Some entry ->
                    exists o sid,
                      nth_error offs k = Some o
                      /\ nth_error sids k = Some sid
                      /\ entry = (if is_context context_index sid
                                  then Some o else None))
              /\ token_is_max_context f = None.
Proof.
  apply (prepared_features_mirror_the_windows lstrip_spaces two_window_tokenizer
           true ["hello world"%string] one_question).
  vm_compute. reflexivity.
Defined.

(** ** Prepared features and the post-processing *)

(** The ids of the prepared features are ids of the batch. *)
Lemma prepared_ids_in_batch lstrip tokenizer pad_on_right context_list examples features :
  prepare_validation_features lstrip tokenizer pad_on_right context_list examples
    = Ok features ->
  forall f, In f features -> In (example_id f) (col_id examples).
Proof.
  intros H f Hf. unfold prepare_validation_features in H.
  apply bind_Ok in H. destruct H as (ss & _ & H).
  apply traverse_Ok_inv in H. destruct H as [_ Hnth].
  apply In_nth_error in Hf. destruct Hf as (i & Hi).
  destruct (Hnth i f Hi) as (j & _ & Hwin).
  apply prepare_window_Ok in Hwin.
  destruct Hwin as (sids & sample & offs & _ & _ & Hid & _).
  now apply getitem_In in Hid.
Qed.

(** X16: features prepared from a batch of examples never make the
    post-processing raise [KeyError], whatever the logits, contexts and options
    are, when it is called with examples that include the ids of the batch. *)
Theorem prepared_features_raise_no_key_error :
  forall lstrip tokenizer pad_on_right context_list examples features,
    prepare_validation_features lstrip tokenizer pad_on_right context_list examples
      = Ok features ->
    forall np_exp np_sum all_examples contexts predictions cfg,
      incl (col_id examples) (map ex_id all_examples) ->
      postprocess_qa_predictions np_exp np_sum all_examples features contexts
        predictions cfg <> Raise KeyError.
Proof.
  intros lstrip tokenizer pad_on_right context_list examples features Hprep
         np_exp np_sum all_examples contexts predictions cfg Hincl Hraise.
  apply postprocess_Raise in Hraise. unfold run in Hraise.
  destruct (negb (length predictions =? 2)); [discriminate Hraise |].
  cbv zeta in Hraise.
  destruct (negb (length (nth 0 predictions []) =? length features));
    [discriminate Hraise |].
  assert (Hok : exists fpe', group_features (example_id_to_index all_examples)
                               (enumerate features) [] = Ok fpe').
  { rewrite group_features_Ok_iff, map_snd_enumerate. intros f Hf.
    rewrite example_id_to_index_None. intros Hnot. apply Hnot, Hincl.
    exact (prepared_ids_in_batch _ _ _ _ _ Hprep f Hf). }
  destruct Hok as (fpe' & Hok). rewrite Hok in Hraise. simpl in Hraise.
  apply examples_loop_Raise in Hraise. destruct Hraise as [H | H]; discriminate H.
Qed.

Lemma prepared_features_raise_no_key_error_witness :
  postprocess_qa_predictions exp_approx sum_left (examples_of_columns one_question)
    [first_window_feature;
     {| example_id := "q1"%string;
        offset_mapping := [None; None; None; Some [6; 11]%Z; None];
        token_is_max_context := None |}]
    ["hello world"%string] hello_predictions default_config <> Raise KeyError.
Proof.
  apply (prepared_features_raise_no_key_error lstrip_spaces two_window_tokenizer
           true ["hello world"%string] one_question).
  - vm_compute. reflexivity.
  - vm_compute. intros a Ha. exact Ha.
Defined.

(** X17: every span prediction collected for a prepared feature joins two
    tokens of its window, start not after end, whose sequence id is the
    context index of line 1123, that is 1 when [pad_on_right] holds and 0
    otherwise, and its offsets are the tokenizer's: the first item of the start
    token's offsets and the second item of the end token's.  Which sentence
    these tokens belong to is the tokenizer's matter: the question is always
    its first argument (lines 1100-1102), so with [pad_on_right] false the
    index 0 is that of the question, not of the context. *)
Theorem prepared_spans_join_context_index_tokens :
  forall lstrip tokenizer pad_on_right context_list examples features
         i f cfg start_logits end_logits p,
    prepare_validation_features lstrip tokenizer pad_on_right context_list examples
      = Ok features ->
    nth_error features i = Some f ->
    In p (feature_predictions cfg f start_logits end_logits) ->
    exists second_sentence,
      traverse (getitem context_list) (col_relevant examples) = Ok second_sentence
      /\ let tok := tokenizer (map lstrip (col_question examples)) second_sentence in
         let context_index := if pad_on_right then 1 else 0 in
         exists sids offs s e os oe,
           nth_error (enc_sequence_ids tok) i = Some sids
           /\ nth_error (enc_offset_mapping tok) i = Some offs
           /\ s <= e
           /\ nth_error sids s = Some (Some context_index)
           /\ nth_error sids e = Some (Some context_index)
           /\ nth_error offs s = Some os
           /\ nth_error offs e = Some oe
           /\ offsets p = (nth 0 os 0%Z, nth 1 oe 0%Z).
Proof.
  intros lstrip tokenizer pad_on_right context_list examples features
         i f cfg sl el p Hprep Hf Hin.
  unfold prepare_validation_features in Hprep.
  apply bind_Ok in Hprep. destruct Hprep as (ss & Hss & Hprep).
  exists ss. split; [exact Hss |]. cbv zeta.
  apply traverse_Ok_inv in Hprep. destruct Hprep as [_ Hnth].
  destruct (Hnth i f Hf) as (j & Hj & Hwin).
  apply nth_error_seq_0 in Hj. subst j.
  apply prepare_window_Ok in Hwin.
  destruct Hwin as (sids & sample & offs & Hsids & _ & _ & Hoffs & _ & Hentry & _).
  unfold feature_predictions in Hin.
  apply in_flat_map in Hin. destruct Hin as (s & _ & Hin).
  apply in_flat_map in Hin. destruct Hin as (e & _ & Hin).
  apply span_prediction_inv in Hin. destruct Hin as (Hscope & Hlen & _ & ->).
  unfold out_of_scope in Hscope. unfold bad_length in Hlen.
  apply orb_false_iff in Hscope. destruct Hscope as [Hscope Hoe].
  apply orb_false_iff in Hscope. destruct Hscope as [_ Hos].
  apply orb_false_iff in Hlen. destruct Hlen as [Hse _].
  apply Nat.ltb_ge in Hse.
  unfold offset_at. simpl offsets.
  destruct (nth_error (offset_mapping f) s) as [[os |] |] eqn:Es;
    try discriminate Hos.
  destruct (nth_error (offset_mapping f) e) as [[oe |] |] eqn:Ee;
    try discriminate Hoe.
  destruct (Hentry s _ Es) as (o1 & sid1 & Ho1 & Hsid1 & Hmask1).
  destruct (Hentry e _ Ee) as (o2 & sid2 & Ho2 & Hsid2 & Hmask2).
  destruct (is_context _ sid1) eqn:E1; [| discriminate Hmask1].
  destruct (is_context _ sid2) eqn:E2; [| discriminate Hmask2].
  apply is_context_true in E1, E2. subst sid1 sid2.
  inversion Hmask1; subst o1. inversion Hmask2; subst o2.
  exists sids, offs, s, e, os, oe. repeat split; assumption.
Qed.

Lemma prepared_spans_join_context_index_tokens_witness :
  exists second_sentence,
    traverse (getitem ["hello world"%string]) (col_relevant one_question)
      = Ok second_sentence
    /\ let tok := two_window_tokenizer (map lstrip_spaces (col_question one_question))
                    second_sentence in
       let context_index := if true then 1 else 0 in
       exists sids offs s e os oe,
         nth_error (enc_sequence_ids tok) 0 = Some sids
         /\ nth_error (enc_offset_mapping tok) 0 = Some offs
         /\ s <= e
         /\ nth_error sids s = Some (Some context_index)
         /\ nth_error sids e = Some (Some context_index)
         /\ nth_error offs s = Some os
         /\ nth_error offs e = Some oe
         /\ offsets {| offsets := (0, 11)%Z; score := 11;
                       start_logit := 5; end_logit := 6 |}
            = (nth 0 os 0%Z, nth 1 oe 0%Z).
Proof.
  apply (prepared_spans_join_context_index_tokens lstrip_spaces two_window_tokenizer
           true ["hello world"%string] one_question
           (features := [first_window_feature;
                         {| example_id := "q1"%string;
                            offset_mapping := [None; None; None; Some [6; 11]%Z; None];
                            token_is_max_context := None |}])
           0 (f := first_window_feature) default_config
           [0; 0; 0; 5; 1; 0]%float [0; 0; 0; 1; 6; 0]%float).
  - vm_compute. reflexivity.
  - reflexivity.
  - vm_compute. auto 40.
Defined.

(** ** When the preparation returns *)

Lemma traverse_Ok_all (A B : Type) (f : A -> result B) (l : list A) : forall bs,
  traverse f l = Ok bs -> forall a, In a l -> exists b, f a = Ok b.
Proof.
  induction l as [| a0 l IH]; simpl; intros bs H a Ha; [destruct Ha |].
  apply bind_Ok in H. destruct H as (b0 & Hb0 & H).
  apply bind_Ok in H. destruct H as (bs0 & Hbs0 & _).
  destruct Ha as [<- | Ha]; [eauto | exact (IH _ Hbs0 a Ha)].
Qed.

Lemma traverse_total (A B : Type) (f : A -> result B) (l : list A) :
  (forall a, In a l -> exists b, f a = Ok b) -> exists bs, traverse f l = Ok bs.
Proof.
  induction l as [| a l IH]; simpl; intros H; [eauto |].
  destruct (H a (or_introl eq_refl)) as (b & ->).
  destruct IH as (bs & ->); [intros a' Ha'; apply H; now right |].
  simpl. eauto.
Qed.

Lemma getitem_Ok_in_range (A : Type) (l : list A) (i : Z) (a : A) :
  getitem l i = Ok a -> index_in_range (length l) i.
Proof.
  unfold getitem, index_in_range.
  destruct (0 <=? i)%Z eqn:E0.
  - apply Z.leb_le in E0. intros H. apply getitem_nat_Ok in H.
    assert (Hlt : Z.to_nat i < length l) by (apply nth_error_Some; now rewrite H).
    lia.
  - apply Z.leb_gt in E0.
    destruct (- Z.of_nat (length l) <=? i)%Z eqn:E1; [| discriminate].
    apply Z.leb_le in E1. intros _. lia.
Qed.

(** X18: preparing the features of a batch returns exactly when every
    [relevant] index is a valid index of the list of contexts and the encoding
    that the tokenizer returns has, for every window, its sequence ids, a sample
    index inside the batch and offsets that are not more than the sequence
    ids. *)
Theorem preparation_returns_iff_encoding_fits :
  forall lstrip tokenizer pad_on_right context_list examples,
    (exists features,
       prepare_validation_features lstrip tokenizer pad_on_right context_list examples
         = Ok features)
    <-> Forall (index_in_range (length context_list)) (col_relevant examples)
        /\ forall second_sentence,
             traverse (getitem context_list) (col_relevant examples)
               = Ok second_sentence ->
             encoding_fits examples
               (tokenizer (map lstrip (col_question examples)) second_sentence).
Proof.
  intros lstrip tokenizer pad_on_right context_list examples.
  unfold prepare_validation_features. split.
  - intros (features & H).
    apply bind_Ok in H. destruct H as (ss & Hss & H). split.
    + apply Forall_forall. intros r Hr.
      destruct (traverse_Ok_all _ _ Hss r Hr) as (c & Hc).
      now apply getitem_Ok_in_range in Hc.
    + intros ss' Hss'. rewrite Hss in Hss'. inversion Hss'; subst ss'.
      intros i Hi.
      destruct (traverse_Ok_all _ _ H i) as (f & Hf); [apply in_seq; lia |].
      apply prepare_window_Ok in Hf.
      destruct Hf as (sids & sample & offs & Hsids & Hsample & Hid & Hoffs & Hlen
                      & Hentry & _).
      exists sids, sample, offs. repeat split; try assumption;
        try (apply getitem_Ok_in_range in Hid; apply Hid).
      destruct (le_lt_dec (length offs) (length sids)) as [Hle | Hgt]; [exact Hle |].
      exfalso.
      destruct (nth_error (offset_mapping f) (length sids)) as [entry |] eqn:E.
      * destruct (Hentry _ _ E) as (_ & sid & _ & Hsid & _).
        assert (Hlt : length sids < length sids)
          by (apply nth_error_Some; now rewrite Hsid).
        lia.
      * apply nth_error_None in E. lia.
  - intros [Hrange Hfits].
    destruct (@traverse_total _ _ (getitem context_list) (col_relevant examples))
      as (ss & Hss).
    { intros r Hr. apply getitem_in_range.
      rewrite Forall_forall in Hrange. now apply Hrange. }
    rewrite Hss. simpl. specialize (Hfits ss Hss).
    apply traverse_total. intros i Hi. apply in_seq in Hi.
    destruct (Hfits i) as (sids & sample & offs & Hsids & Hsample & Hrg & Hoffs & Hle);
      [lia |].
    unfold prepare_window.
    apply getitem_nat_Ok in Hsids, Hsample, Hoffs. rewrite Hsids, Hsample. simpl.
    destruct (getitem_in_range (col_id examples) Hrg) as (eid & ->). simpl.
    rewrite Hoffs. simpl.
    destruct (@traverse_total _ _
                (mask_offset (if pad_on_right then 1 else 0) sids) (enumerate offs))
      as (masked & ->); [| simpl; eauto].
    intros [k o] Hko. apply in_enumerate in Hko. unfold mask_offset. simpl.
    destruct (nth_error sids k) as [sid |] eqn:E.
    + apply getitem_nat_Ok in E. rewrite E. simpl. eauto.
    + apply nth_error_None in E. lia.
Qed.

(* ------------------------------------------------------------------ *)
(** * The checks on the command line *)

Lemma split_dot_not_nil (s : string) : split_dot s <> [].
Proof.
  destruct s as [| c s]; simpl; [discriminate |].
  destruct (Ascii.eqb c "."%char); [discriminate |].
  destruct (split_dot s); discriminate.
Qed.

(** [[-1]] of the pieces never raises. *)
Lemma extension_getitem (file : string) :
  getitem (split_dot file) (-1) = Ok (extension file).
Proof.
  unfold extension, getitem, getitem_nat.
  pose proof (split_dot_not_nil file) as Hne.
  destruct (split_dot file) as [| p l] using rev_ind; [congruence |]. clear IHl Hne.
  rewrite last_last, length_app. simpl length.
  replace (0 <=? -1)%Z with false by reflexivity.
  replace (- Z.of_nat (length l + 1) <=? -1)%Z with true by (symmetry; apply Z.leb_le; lia).
  replace (Z.to_nat (Z.of_nat (length l + 1) + -1)) with (length l + 0) by lia.
  rewrite nth_error_app2 by lia.
  replace (length l + 0 - length l) with 0 by lia. reflexivity.
Qed.

Lemma split_dot_app (pre rest : string) :
  split_dot (pre ++ String "."%char rest) = split_dot pre ++ split_dot rest.
Proof.
  induction pre as [| c pre IH]; simpl; [reflexivity |].
  destruct (Ascii.eqb c "."%char).
  - now rewrite IH.
  - rewrite IH. pose proof (split_dot_not_nil pre) as Hne.
    destruct (split_dot pre) as [| piece pieces]; [congruence | reflexivity].
Qed.

Lemma last_app_not_nil (A : Type) (l1 l2 : list A) (d : A) :
  l2 <> [] -> last (l1 ++ l2) d = last l2 d.
Proof.
  intros Hne. destruct l2 as [| x l2] using rev_ind; [congruence |].
  now rewrite app_assoc, !last_last.
Qed.

(** A name with a dot ends in a dot and its extension; a name without one is
    its own extension. *)
Lemma extension_suffix (file : string) :
  match split_dot file with
  | [] => False
  | [piece] => file = piece
  | _ => exists pre, file = (pre ++ String "."%char (extension file))%string
  end.
Proof.
  unfold extension. induction file as [| c file IH]; simpl; [reflexivity |].
  destruct (Ascii.eqb c "."%char) eqn:Ec.
  - apply Ascii.eqb_eq in Ec. subst c.
    destruct (split_dot file) as [| p [| q ps]]; [destruct IH | |].
    + subst file. now exists EmptyString.
    + destruct IH as (pre & IH). exists (String "."%char pre).
      simpl. f_equal. exact IH.
  - destruct (split_dot file) as [| p [| q ps]]; [destruct IH | |].
    + now subst file.
    + destruct IH as (pre & IH). exists (String c pre).
      simpl. f_equal. exact IH.
Qed.

Lemma extension_of_suffix (pre ext : string) :
  split_dot ext = [ext] ->
  extension (pre ++ String "."%char ext) = ext.
Proof.
  intros H. unfold extension.
  rewrite split_dot_app, last_app_not_nil by apply split_dot_not_nil.
  now rewrite H.
Qed.

Lemma csv_or_json_true (ext : string) :
  csv_or_json ext = true <-> ext = "csv"%string \/ ext = "json"%string.
Proof.
  unfold csv_or_json. simpl. rewrite !orb_true_iff, !String.eqb_eq.
  intuition discriminate.
Qed.

(** X19: a file name passes the check on its extension exactly when it is
    [csv] or [json] itself or ends in [.csv] or [.json]. *)
Theorem extension_check_accepts_csv_and_json_names :
  forall message file,
    check_extension message (Some file) = ArgsOk tt
    <-> file = "csv"%string \/ file = "json"%string
        \/ exists pre, file = (pre ++ ".csv")%string \/ file = (pre ++ ".json")%string.
Proof.
  intros message file. unfold check_extension.
  destruct (csv_or_json (extension file)) eqn:E.
  - split; [intros _ | reflexivity].
    apply csv_or_json_true in E.
    pose proof (extension_suffix file) as Hsuf.
    destruct (split_dot file) as [| p [| q ps]] eqn:Es; [destruct Hsuf | |].
    + assert (Hext : extension file = file).
      { unfold extension. rewrite Es. simpl. now symmetry. }
      rewrite Hext in E. tauto.
    + destruct Hsuf as (pre & Hsuf). right. right. exists pre.
      destruct E as [E | E]; rewrite E in Hsuf; [left | right]; exact Hsuf.
  - split; [discriminate |]. intros H. exfalso.
    assert (Hok : csv_or_json (extension file) = true); [| congruence].
    apply csv_or_json_true.
    destruct H as [-> | [-> | (pre & [-> | ->])]].
    + left. reflexivity.
    + right. reflexivity.
    + left. now apply (@extension_of_suffix pre "csv"%string).
    + right. now apply (@extension_of_suffix pre "json"%string).
Qed.

Lemma check_extension_Ok message file :
  check_extension message file = ArgsOk tt
  <-> forall f, file = Some f -> csv_or_json (extension f) = true.
Proof.
  unfold check_extension. destruct file as [f |].
  - destruct (csv_or_json (extension f)) eqn:E; split.
    + intros _ f' Hf'. inversion Hf'; subst. exact E.
    + reflexivity.
    + discriminate.
    + intros H. specialize (H f eq_refl). congruence.
  - split; [intros _ f Hf; discriminate Hf | reflexivity].
Qed.

Section SanityChecks.
Variable a : args.

Lemma later_checks_Ok a' :
  later_checks a = ArgsOk a'
  <-> a' = a
      /\ (forall f, train_file a = Some f -> csv_or_json (extension f) = true)
      /\ (forall f, validation_file a = Some f -> csv_or_json (extension f) = true)
      /\ (forall f, test_file a = Some f -> csv_or_json (extension f) = true)
      /\ (push_to_hub a = true -> output_dir a <> None).
Proof.
  unfold later_checks.
  rewrite <- (check_extension_Ok "`train_file` should be a csv or a json file.").
  rewrite <- (check_extension_Ok "`validation_file` should be a csv or a json file.").
  rewrite <- (check_extension_Ok "`test_file` should be a csv or a json file.").
  destruct (check_extension _ (train_file a)) as [[] | e1]; simpl;
    [| split; [discriminate | intros (_ & H & _); discriminate H]].
  destruct (check_extension _ (validation_file a)) as [[] | e2]; simpl;
    [| split; [discriminate | intros (_ & _ & H & _); discriminate H]].
  destruct (check_extension _ (test_file a)) as [[] | e3]; simpl;
    [| split; [discriminate | intros (_ & _ & _ & H & _); discriminate H]].
  destruct (push_to_hub a); [destruct (output_dir a) |].
  - split; [intros H; inversion H; repeat split; discriminate
           | intros (-> & _); reflexivity].
  - split; [discriminate | intros (_ & _ & _ & _ & H); now destruct H].
  - split; [intros H; inversion H; repeat split; discriminate
           | intros (-> & _); reflexivity].
Qed.

Lemma sanity_checks_cases :
  (dataset_name a = None /\ train_file a = None
   /\ validation_file a = None /\ test_file a = None
   /\ sanity_checks a = ArgsRaise ValueError_need_data)
  \/ ((dataset_name a <> None \/ train_file a <> None
       \/ validation_file a <> None \/ test_file a <> None)
      /\ sanity_checks a = later_checks a).
Proof.
  unfold sanity_checks.
  destruct (dataset_name a); [right; split; [left; discriminate | reflexivity] |].
  destruct (train_file a);
    [right; split; [right; left; discriminate | reflexivity] |].
  destruct (validation_file a);
    [right; split; [right; right; left; discriminate | reflexivity] |].
  destruct (test_file a);
    [right; split; [right; right; right; discriminate | reflexivity] |].
  left. repeat split.
Qed.

End SanityChecks.

(** X20: the sanity checks of [parse_args] let the arguments through, as
    they are, exactly when a dataset name or one of the three files is given,
    every file that is given has the extension [csv] or [json], and
    [--push_to_hub] comes with an [output_dir]. *)
Theorem sanity_checks_pass_iff :
  forall a a',
    sanity_checks a = ArgsOk a'
    <-> a' = a
        /\ (dataset_name a <> None \/ train_file a <> None
            \/ validation_file a <> None \/ test_file a <> None)
        /\ (forall f, train_file a = Some f -> csv_or_json (extension f) = true)
        /\ (forall f, validation_file a = Some f -> csv_or_json (extension f) = true)
        /\ (forall f, test_file a = Some f -> csv_or_json (extension f) = true)
        /\ (push_to_hub a = true -> output_dir a <> None).
Proof.
  intros a a'.
  destruct (sanity_checks_cases a) as [(Hd & Ht & Hv & Hte & ->) | (Hsome & ->)].
  - split; [discriminate |].
    intros (_ & [H | [H | [H | H]]] & _); contradiction.
  - rewrite later_checks_Ok. tauto.
Qed.

(** X21: the sanity checks stop with the [ValueError] of line 809 exactly
    when neither a dataset name nor any of the three files is given, whatever
    the other options are; every other failure is an [AssertionError]. *)
Theorem no_data_is_the_only_value_error :
  forall a,
    (sanity_checks a = ArgsRaise ValueError_need_data
     <-> dataset_name a = None /\ train_file a = None
         /\ validation_file a = None /\ test_file a = None)
    /\ (forall e, sanity_checks a = ArgsRaise e ->
          e = ValueError_need_data \/ exists message, e = AssertionError message).
Proof.
  intros a.
  assert (Hlater : forall e,
    later_checks a = ArgsRaise e -> exists message, e = AssertionError message).
  { intros e. unfold later_checks, check_extension.
    destruct (train_file a) as [t |];
      [destruct (csv_or_json (extension t));
         [| simpl; intros H; inversion H; eauto] |]; simpl;
    (destruct (validation_file a) as [v |];
      [destruct (csv_or_json (extension v));
         [| simpl; intros H; inversion H; eauto] |]); simpl;
    (destruct (test_file a) as [te |];
      [destruct (csv_or_json (extension te));
         [| simpl; intros H; inversion H; eauto] |]); simpl;
    (destruct (push_to_hub a); [destruct (output_dir a) |];
       intros H; inversion H; eauto). }
  destruct (sanity_checks_cases a) as [(Hd & Ht & Hv & Hte & Hr) | (Hsome & Hr)];
    rewrite Hr.
  - split; [tauto | intros e H; inversion H; auto].
  - split.
    + split.
      * intros H. apply Hlater in H. destruct H as (m & H). discriminate H.
      * intros (Hd & Ht & Hv & Hte). exfalso. tauto.
    + intros e H. right. now apply Hlater.
Qed.

(** X22: for arguments that passed the sanity checks and name no dataset,
    the statements that load the data files raise [AttributeError] when no
    validation file is given; otherwise [load_dataset] is called with the
    extension of the validation file, which is [csv] or [json], and with data
    files that hold the validation file under the key [validation]. *)
Theorem data_files_need_a_validation_file :
  forall a,
    sanity_checks a = ArgsOk a ->
    dataset_name a = None ->
    match validation_file a with
    | None => raw_datasets_call a = ArgsRaise AttributeError
    | Some f =>
        exists data_files,
          raw_datasets_call a = ArgsOk (LoadFiles (extension f) data_files)
          /\ (extension f = "csv"%string \/ extension f = "json"%string)
          /\ get String.eqb data_files "validation"%string = Some f
    end.
Proof.
  intros a Hok Hname.
  destruct (sanity_checks_cases a) as [(_ & _ & _ & _ & Hr) | (_ & Hr)];
    [congruence |].
  rewrite Hr in Hok. apply later_checks_Ok in Hok.
  destruct Hok as (_ & _ & Hv & _).
  unfold raw_datasets_call. rewrite Hname.
  destruct (validation_file a) as [f |]; [| reflexivity].
  eexists. split; [reflexivity |]. split.
  - apply csv_or_json_true. now apply Hv.
  - unfold set_file at 1.
    destruct (test_file a) as [t |].
    + rewrite (get_set_other String.eqb String.eqb_eq) by discriminate.
      simpl set_file. apply (get_set_same String.eqb String.eqb_eq).
    + simpl set_file. apply (get_set_same String.eqb String.eqb_eq).
Qed.

Lemma data_files_need_a_validation_file_witness :
  raw_datasets_call train_only_args = ArgsRaise AttributeError
  /\ exists data_files,
       raw_datasets_call valid_file_args
         = ArgsOk (LoadFiles (extension "data/valid.v2.json") data_files)
       /\ (extension "data/valid.v2.json" = "csv"%string
           \/ extension "data/valid.v2.json" = "json"%string)
       /\ get String.eqb data_files "validation"%string
          = Some "data/valid.v2.json"%string.
Proof.
  split.
  - apply (@data_files_need_a_validation_file train_only_args); reflexivity.
  - apply (@data_files_need_a_validation_file valid_file_args); reflexivity.
Defined.
